(** * Verification of the S3 backup synchronizer (backup_to_s3.py)

    A shallow embedding of the upload pass, the deletion pass and the
    remote-key derivation of [backup_to_s3.py], with the ledger
    (PostgreSQL through psycopg2), the object store (boto3) and the local
    file system as explicit state and oracles. *)

From Stdlib Require Import String Ascii ZArith List Bool Lia.
From stdpp Require Import base option list gmap strings fin_maps.

Local Open Scope string_scope.
Local Open Scope list_scope.

(* ===================================================================== *)
(** ** Strings and POSIX paths

    The program runs on a Linux host, so [os.path] is [posixpath] and
    [pathlib.Path] is [PosixPath].  The pure string functions of these
    modules that the program calls are transcribed here. *)
(* ===================================================================== *)

Module PosixPath.

(** [s.split(sep)] for a one-character separator. *)
Fixpoint split_on (sep : ascii) (s : string) : list string :=
  match s with
  | EmptyString => [EmptyString]
  | String c s' =>
      if Ascii.eqb c sep then EmptyString :: split_on sep s'
      else match split_on sep s' with
           | [] => [String c EmptyString]
           | h :: t => String c h :: t
           end
  end.

(** [s.endswith('/')]. *)
Fixpoint ends_with_slash (s : string) : bool :=
  match s with
  | EmptyString => false
  | String c EmptyString => Ascii.eqb c "/"
  | String _ s' => ends_with_slash s'
  end.

(** One step of [posixpath.join]: an absolute component restarts the path. *)
Definition join2 (path b : string) : string :=
  if String.prefix "/" b then b
  else if String.eqb path "" || ends_with_slash path then path ++ b
  else path ++ "/" ++ b.

(** [posixpath.join(a, *p)]. *)
Definition join (a : string) (p : list string) : string :=
  fold_left join2 p a.

(** The number of leading slashes [posixpath.normpath] keeps: two stay two,
    three or more collapse to one. *)
Definition initial_slashes (path : string) : nat :=
  if String.prefix "/" path then
    if String.prefix "//" path && negb (String.prefix "///" path) then 2 else 1
  else 0.

(** The body of the loop of [posixpath.normpath]. *)
Definition normpath_step (initial : nat) (new_comps : list string)
    (comp : string) : list string :=
  if String.eqb comp "" || String.eqb comp "." then new_comps
  else if negb (String.eqb comp "..")
          || (Nat.eqb initial 0 && bool_decide (new_comps = []))
          || bool_decide (last new_comps = Some "..")
       then new_comps ++ [comp]
       else removelast new_comps.

Definition or_dot (path : string) : string :=
  if String.eqb path "" then "." else path.

(** [posixpath.normpath]. *)
Definition normpath (path : string) : string :=
  if String.eqb path "" then "."
  else
    let initial := initial_slashes path in
    let comps := fold_left (normpath_step initial) (split_on "/" path) [] in
    let joined := String.concat "/" comps in
    or_dot (String.concat "" (repeat "/" initial) ++ joined).

(** [posixpath.abspath], with the working directory of the process. *)
Definition abspath (cwd path : string) : string :=
  normpath (if String.prefix "/" path then path else join cwd [path]).

(** [[x for x in abspath(p).split(sep) if x]]. *)
Definition components (cwd path : string) : list string :=
  filter (fun x => x <> "") (split_on "/" (abspath cwd path)).

(** [len(commonprefix([l1, l2]))] for two lists of components. *)
Fixpoint common_prefix_len (l1 l2 : list string) : nat :=
  match l1, l2 with
  | a :: l1', b :: l2' => if String.eqb a b then S (common_prefix_len l1' l2') else 0
  | _, _ => 0
  end.

(** [posixpath.relpath(path, start)]; [None] stands for the [ValueError]
    it raises, which on POSIX happens for the empty path only. *)
Definition relpath (cwd path start : string) : option string :=
  if String.eqb path "" then None
  else
    let start_list := components cwd start in
    let path_list := components cwd path in
    let i := common_prefix_len start_list path_list in
    let rel_list := repeat ".." (length start_list - i) ++ drop i path_list in
    match rel_list with
    | [] => Some "."
    | a :: p => Some (join a p)
    end.

(** The parts of a [PurePosixPath] after its anchor: empty and ['.']
    components are dropped when the path is parsed. *)
Definition tail_parts (p : string) : list string :=
  filter (fun c => c <> "" /\ c <> ".") (split_on "/" p).

(** [PurePosixPath(p).parts]. *)
Definition parts (p : string) : list string :=
  (if String.prefix "/" p then ["/"] else []) ++ tail_parts p.

(** [PurePosixPath(p).name]: the final component, [''] when there is none. *)
Definition name (p : string) : string :=
  default "" (last (tail_parts p)).

(** The substring from the last ['.'] of [s] on, when [s] has one. *)
Fixpoint from_last_dot (s : string) : option string :=
  match s with
  | EmptyString => None
  | String c s' =>
      match from_last_dot s' with
      | Some t => Some t
      | None => if Ascii.eqb c "." then Some s else None
      end
  end.

(** [PurePosixPath(p).suffix]: [name[i:]] for [i = name.rfind('.')] when
    [0 < i < len(name) - 1], and [''] otherwise. *)
Definition suffix (p : string) : string :=
  match name p with
  | EmptyString => ""
  | String _ rest =>
      match from_last_dot rest with
      | Some t => if Nat.eqb (String.length t) 1 then "" else t
      | None => ""
      end
  end.

End PosixPath.

(** [c.lower()] on ASCII letters. *)
Definition lower_ascii (c : ascii) : ascii :=
  let n := nat_of_ascii c in
  if Nat.leb 65 n && Nat.leb n 90 then ascii_of_nat (n + 32) else c.

(** [s.lower()]. *)
Fixpoint lower (s : string) : string :=
  match s with
  | EmptyString => EmptyString
  | String c s' => String (lower_ascii c) (lower s')
  end.

(** [s.upper()] on ASCII letters. *)
Definition upper_ascii (c : ascii) : ascii :=
  let n := nat_of_ascii c in
  if Nat.leb 97 n && Nat.leb n 122 then ascii_of_nat (n - 32) else c.

Fixpoint upper (s : string) : string :=
  match s with
  | EmptyString => EmptyString
  | String c s' => String (upper_ascii c) (upper s')
  end.

(** [s.replace('\\', '/')]. *)
Fixpoint replace_backslash (s : string) : string :=
  match s with
  | EmptyString => EmptyString
  | String c s' =>
      String (if Ascii.eqb c "\" then "/"%char else c) (replace_backslash s')
  end.

(** [value LIKE pattern] of PostgreSQL: ['%'] matches any run of characters,
    ['_'] any single one, and a backslash takes the next pattern character
    literally.  A pattern ending in a lone backslash is rejected by the
    server; the program's patterns end in ['%'], so that case never runs and
    is mapped to [false].  A string is a sequence of bytes here and ['_']
    takes one byte, which is one character of ASCII text; in a UTF8
    database the server takes one character, of up to four bytes.  The
    properties of this file that rest on the matcher use patterns without
    ['_'], or an ASCII character at its place. *)
Fixpoint like_match (pat s : string) {struct pat} : bool :=
  match pat with
  | EmptyString => String.eqb s ""
  | String c pat' =>
      if Ascii.eqb c "%" then
        (fix any (s : string) : bool :=
           like_match pat' s ||
           match s with
           | EmptyString => false
           | String _ s' => any s'
           end) s
      else if Ascii.eqb c "_" then
        match s with
        | EmptyString => false
        | String _ s' => like_match pat' s'
        end
      else if Ascii.eqb c "\" then
        match pat' with
        | EmptyString => false
        | String e pat'' =>
            match s with
            | EmptyString => false
            | String d s' => Ascii.eqb e d && like_match pat'' s'
            end
        end
      else
        match s with
        | EmptyString => false
        | String d s' => Ascii.eqb c d && like_match pat' s'
        end
  end.

(** [s.split(sep, 1)] when [sep] occurs in [s]: the text before its first
    occurrence and the text after it; [None] when it does not occur (the
    split then has one element). *)
Fixpoint split_once (sep : ascii) (s : string) : option (string * string) :=
  match s with
  | EmptyString => None
  | String c s' =>
      if Ascii.eqb c sep then Some (EmptyString, s')
      else match split_once sep s' with
           | Some (a, b) => Some (String c a, b)
           | None => None
           end
  end.

(** A decoded text, as the code points of a Python [str].  The lines of a
    file opened in text mode are such texts. *)
Definition Text : Type := list N.

(** The text of a string literal of the source that holds ASCII characters
    only. *)
Definition text (s : string) : Text :=
  map N_of_ascii (list_ascii_of_string s).

(** [c.isspace()], the test [str.strip] applies to each code point: the
    ASCII white space and the separators 28 to 31, the next-line control,
    the no-break space, and the spaces and line separators of Unicode. *)
Definition is_space (c : N) : bool :=
  ((9 <=? c) && (c <=? 13) || (28 <=? c) && (c <=? 32)
   || (c =? 133) || (c =? 160) || (c =? 5760)
   || (8192 <=? c) && (c <=? 8202)
   || (c =? 8232) || (c =? 8233) || (c =? 8239) || (c =? 8287)
   || (c =? 12288))%N.

(** [t.lstrip()]. *)
Fixpoint lstrip (t : Text) : Text :=
  match t with
  | [] => []
  | c :: t' => if is_space c then lstrip t' else t
  end.

(** [t.rstrip()]. *)
Fixpoint rstrip (t : Text) : Text :=
  match t with
  | [] => []
  | c :: t' =>
      match rstrip t' with
      | [] => if is_space c then [] else [c]
      | u => c :: u
      end
  end.

(** [t.strip()]. *)
Definition strip (t : Text) : Text := rstrip (lstrip t).

(** [t.startswith(p)]. *)
Fixpoint starts_with (p t : Text) : bool :=
  match p, t with
  | [], _ => true
  | a :: p', b :: t' => N.eqb a b && starts_with p' t'
  | _ :: _, [] => false
  end.

(** [t.split(sep, 1)[1]] when [sep] occurs in [t]: the text after its first
    occurrence; [None] when it does not occur. *)
Fixpoint after_first (sep : N) (t : Text) : option Text :=
  match t with
  | [] => None
  | c :: t' => if N.eqb c sep then Some t' else after_first sep t'
  end.

(* ===================================================================== *)
(** ** The ledger: tables, connection and transactions *)
(* ===================================================================== *)

(** A row of [s3_backups], keyed by its [file_path] (the column the
    [ON CONFLICT] clauses name, so it is unique).  The serial [id] column is
    selected once by [file_in_database] and never read, and is left out. *)
Record BackupRecord := mkBackupRecord {
  s3_key : string;
  source_type : string;
  file_size : option Z;
  md5_checksum : option string;
  status : string;
  uploaded_at : option nat
}.

(** A row of the audit table [s3_backups_deleted]. *)
Record DeletedRecord := mkDeletedRecord {
  d_file_path : string;
  d_s3_key : string;
  d_s3_full_path : string;
  d_source_type : string;
  d_file_size : option Z;
  d_uploaded_at : option nat;
  d_md5_checksum : option string;
  d_original_status : string;
  d_deleted_at : nat
}.

(** Modelled from the spec: the declaration of table [s3_backups] is not in
    the sources, so the value a column takes when an [INSERT] leaves it out
    comes from the data model of the spec, where size and checksum "may be
    null if upload failed before these were known" and [uploaded_at] is the
    "timestamp of last successful write to this row": all three default to
    null. *)
Definition default_file_size : option Z := None.
Definition default_md5_checksum : option string := None.
Definition default_uploaded_at : option nat := None.

Record Tables := mkTables {
  s3_backups : gmap string BackupRecord;
  s3_backups_deleted : list DeletedRecord
}.

(** The statements the program sends, with their parameters.  The row of
    [InsertDeleted] holds the eight values the program passes; its deletion
    time is the [NOW()] of the statement, set when it runs. *)
Inductive Stmt :=
| SelectByPath (file_path : string)
| Upsert (file_path key stype : string) (size : option Z)
         (md5 : option string) (st : string)
| UpsertError (file_path key stype : string)
| SelectUploadedLike (stype pattern : string)
| SelectRecord (file_path : string)
| InsertDeleted (row : DeletedRecord)
| DeleteByPath (file_path : string)
| Commit.

(** A psycopg2 connection (not in autocommit mode): [committed] is what the
    server holds durably, [current] is what the open transaction sees,
    [aborted] tells that a statement of the open transaction failed, after
    which the server refuses every statement until the rollback, and
    [issued] counts the statements sent so far. *)
Record Conn := mkConn {
  committed : Tables;
  current : Tables;
  aborted : bool;
  issued : nat
}.

(* ===================================================================== *)
(** ** The host, the object store and the program state *)
(* ===================================================================== *)

(** The exceptions the calls below raise: of botocore, of the file system
    and of psycopg2. *)
Inductive exn := ClientError | OSError | DatabaseError.

(** What the program reads from its surroundings and cannot control.  The
    file system is only read, and [Path.resolve] and the directory walk are
    taken to succeed; the fault oracles say which of the other calls
    raise.  The existence test [Path.exists] of the deletion loop shares the
    oracle of [os.path.exists] and is taken to answer as well, where the
    source can raise on an error other than a missing path. *)
Record World := mkWorld {
  cwd : string;
  path_exists : string -> bool;          (* os.path.exists, Path.exists *)
  path_resolve : string -> string;       (* str(Path(p).resolve()) *)
  rglob : string -> list string;         (* Path(p).rglob('*') *)
  is_file : string -> bool;              (* Path.is_file *)
  getsize : string -> option Z;          (* os.path.getsize; None: OSError *)
  read_md5 : string -> option string;    (* the digest; None: read fails *)
  upload_fails : string -> string -> option exn;
                                         (* open + upload_fileobj of a path to a key *)
  delete_fails : string -> option exn;   (* delete_object of a key *)
  db_fails : nat -> Stmt -> bool;        (* the n-th statement is refused *)
  now : nat -> nat                       (* NOW() at the n-th statement *)
}.

(** A call that reached the object store and took effect there. *)
Inductive S3Call :=
| PutObject (bucket key filepath stype : string) (size : Z)
| DeleteObject (bucket key : string).

(** The lines the functions below write to the log. *)
Inductive LogEvent :=
| LogMd5Failed (filepath : string)
| LogWouldUpload (filepath bucket key : string) (size : Z) (md5 : option string)
| LogUploaded (filepath bucket key : string)
| LogUploadFailed (filepath : string)
| LogUploadUnexpected (filepath : string)
| LogInsertFailed
| LogSourceMissing (source_path : string)
| LogScanning (stype source_path : string)
| LogErrorProcessing (filepath : string)
| LogCompleted (stype : string) (uploaded skipped errors : nat)
| LogNotAccessible (source_path : string)
| LogSyncing (stype source_path : string)
| LogWouldDelete (filepath bucket key : string)
| LogDeleted (filepath full_path : string)
| LogRecordNotFound (filepath : string)
| LogDeleteFailed (key : string)
| LogDeleteUnexpected (key : string)
| LogDeletionComplete (stype : string) (deleted errors : nat).

Record State := mkState {
  conn : Conn;
  s3_calls : list S3Call;
  logs : list LogEvent
}.

(* ===================================================================== *)
(** ** A state and exception monad *)
(* ===================================================================== *)

Inductive result (A : Type) :=
| Ok (a : A)
| Raise (e : exn).
Arguments Ok {A} a.
Arguments Raise {A} e.

Definition M (A : Type) : Type := State -> result A * State.

Definition ret {A} (a : A) : M A := fun st => (Ok a, st).

Definition raise {A} (e : exn) : M A := fun st => (Raise e, st).

Definition bind {A B} (m : M A) (k : A -> M B) : M B :=
  fun st =>
    match m st with
    | (Ok a, st') => k a st'
    | (Raise e, st') => (Raise e, st')
    end.

(** [try: m except Exception as e: h e]; the handler starts from the state
    the exception left. *)
Definition try_except {A} (m : M A) (h : exn -> M A) : M A :=
  fun st =>
    match m st with
    | (Ok a, st') => (Ok a, st')
    | (Raise e, st') => h e st'
    end.

Declare Scope m_scope.
Delimit Scope m_scope with M.
Notation "x <- m ;; k" := (bind m (fun x => k))
  (at level 100, m at next level, right associativity) : m_scope.
Notation "m ;;; k" := (bind m (fun _ => k))
  (at level 100, right associativity) : m_scope.
Local Open Scope m_scope.

(** [for x in l: acc = body x acc]. *)
Fixpoint for_each {A S} (body : A -> S -> M S) (l : list A) (acc : S) : M S :=
  match l with
  | [] => ret acc
  | x :: l' => acc' <- body x acc ;; for_each body l' acc'
  end.

Definition log (e : LogEvent) : M unit :=
  fun st => (Ok tt, mkState (conn st) (s3_calls st) (logs st ++ [e])).

Definition set_conn (c : Conn) (st : State) : State :=
  mkState c (s3_calls st) (logs st).

(* ===================================================================== *)
(** ** Statements and their effect *)
(* ===================================================================== *)

(** What a statement that the server accepts does to the tables; [t_now] is
    the value of [NOW()]. *)
Definition stmt_effect (t_now : nat) (s : Stmt) (t : Tables) : Tables :=
  match s with
  | Upsert p key stype size md5 st =>
      (* INSERT ... ON CONFLICT (file_path) DO UPDATE SET s3_key, file_size,
         md5_checksum, status, uploaded_at: source_type stays on conflict *)
      let row :=
        match s3_backups t !! p with
        | Some r => mkBackupRecord key (source_type r) size md5 st (Some t_now)
        | None => mkBackupRecord key stype size md5 st (Some t_now)
        end in
      mkTables (<[p := row]> (s3_backups t)) (s3_backups_deleted t)
  | UpsertError p key stype =>
      (* INSERT (file_path, s3_key, source_type, status) ...
         ON CONFLICT (file_path) DO UPDATE SET status = 'error' *)
      let row :=
        match s3_backups t !! p with
        | Some r =>
            mkBackupRecord (s3_key r) (source_type r) (file_size r)
              (md5_checksum r) "error" (uploaded_at r)
        | None =>
            mkBackupRecord key stype default_file_size default_md5_checksum
              "error" default_uploaded_at
        end in
      mkTables (<[p := row]> (s3_backups t)) (s3_backups_deleted t)
  | InsertDeleted row =>
      mkTables (s3_backups t)
        (s3_backups_deleted t ++
           [mkDeletedRecord (d_file_path row) (d_s3_key row) (d_s3_full_path row)
              (d_source_type row) (d_file_size row) (d_uploaded_at row)
              (d_md5_checksum row) (d_original_status row) t_now])
  | DeleteByPath p =>
      mkTables (delete p (s3_backups t)) (s3_backups_deleted t)
  | SelectByPath _ | SelectUploadedLike _ _ | SelectRecord _ | Commit => t
  end.

(** [cursor.execute(s)] followed, for a query, by the fetch of its rows
    ([rows] reads them off the tables).  A statement sent in an aborted
    transaction, or one the oracle refuses, raises and leaves the
    transaction aborted. *)
Definition execute {R} (w : World) (s : Stmt) (rows : Tables -> R) : M R :=
  fun st =>
    let c := conn st in
    if aborted c || db_fails w (issued c) s then
      (Raise DatabaseError,
       set_conn (mkConn (committed c) (current c) true (S (issued c))) st)
    else
      (Ok (rows (current c)),
       set_conn (mkConn (committed c)
                   (stmt_effect (now w (issued c)) s (current c))
                   false (S (issued c))) st).

(** [conn.commit()].  The server answers the commit of an aborted
    transaction with a rollback and no error. *)
Definition commit (w : World) : M unit :=
  fun st =>
    let c := conn st in
    if aborted c then
      (Ok tt, set_conn (mkConn (committed c) (committed c) false (S (issued c))) st)
    else if db_fails w (issued c) Commit then
      (Raise DatabaseError,
       set_conn (mkConn (committed c) (current c) true (S (issued c))) st)
    else
      (Ok tt, set_conn (mkConn (current c) (current c) false (S (issued c))) st).

(** [conn.rollback()]: taken to succeed always. *)
Definition rollback : M unit :=
  fun st =>
    let c := conn st in
    (Ok tt, set_conn (mkConn (committed c) (committed c) false (issued c)) st).

(** The rows of
    [SELECT file_path, s3_key FROM s3_backups
     WHERE source_type = %s AND status = 'uploaded' AND file_path LIKE %s]. *)
Definition uploaded_like (stype pattern : string) (t : Tables)
    : list (string * string) :=
  (fun pr => (pr.1, s3_key pr.2)) <$>
    map_to_list
      (filter (fun pr => source_type pr.2 = stype /\ status pr.2 = "uploaded"
                         /\ like_match pattern pr.1 = true)
              (s3_backups t)).

(* ===================================================================== *)
(** ** The object store and the file system *)
(* ===================================================================== *)

(** [open(filepath, 'rb')] and [s3_client.upload_fileobj(...)] with the
    tags of the file. *)
Definition s3_upload_fileobj (w : World) (bucket filepath key stype : string)
    (size : Z) : M unit :=
  fun st =>
    match upload_fails w filepath key with
    | Some e => (Raise e, st)
    | None =>
        (Ok tt, mkState (conn st)
                  (s3_calls st ++ [PutObject bucket key filepath stype size])
                  (logs st))
    end.

(** [s3_client.delete_object(Bucket=bucket, Key=key)]. *)
Definition s3_delete_object (w : World) (bucket key : string) : M unit :=
  fun st =>
    match delete_fails w key with
    | Some e => (Raise e, st)
    | None =>
        (Ok tt, mkState (conn st) (s3_calls st ++ [DeleteObject bucket key])
                  (logs st))
    end.

Definition os_path_getsize (w : World) (filepath : string) : M Z :=
  match getsize w filepath with
  | Some n => ret n
  | None => raise OSError
  end.

(* ===================================================================== *)
(** ** The program *)
(* ===================================================================== *)

Definition IMAGE_EXTENSIONS : list string :=
  let base := [".jpg"; ".jpeg"; ".raw"; ".cr2"; ".nef"; ".arw"; ".dng";
               ".tif"; ".tiff"; ".png"; ".raf"] in
  base ++ map upper base.

Definition EXCLUDE_DIRS : list string :=
  ["thumbs"; "encoded-video"; "profiles"; "backups"].

Definition calculate_md5 (w : World) (filepath : string) : M (option string) :=
  match read_md5 w filepath with
  | Some digest => ret (Some digest)
  | None => log (LogMd5Failed filepath) ;;; ret None
  end.

Definition get_s3_key (w : World) (filepath stype source_path : string) : string :=
  let filepath_str := filepath in
  let source_path_resolved := path_resolve w source_path in
  let filepath_resolved := path_resolve w filepath_str in
  let relative_path :=
    match PosixPath.relpath (cwd w) filepath_resolved source_path_resolved with
    | Some r => r
    | None => PosixPath.name filepath_str
    end in
  let relative_path :=
    if String.prefix ".." relative_path then PosixPath.name filepath_str
    else relative_path in
  let normalized_path := replace_backslash relative_path in
  stype ++ "/" ++ normalized_path.

Definition file_in_database (w : World) (filepath : string)
    : M (option (string * string)) :=
  execute w (SelectByPath filepath)
    (fun t => (fun r => (s3_key r, status r)) <$> s3_backups t !! filepath).

Definition upload_file_to_s3 (w : World) (bucket filepath key stype : string)
    (dry_run : bool) : M (Z * option string) :=
  try_except
    (size <- os_path_getsize w filepath ;;
     md5 <- calculate_md5 w filepath ;;
     if dry_run then
       log (LogWouldUpload filepath bucket key size md5) ;;;
       ret (size, md5)
     else
       s3_upload_fileobj w bucket filepath key stype size ;;;
       log (LogUploaded filepath bucket key) ;;;
       ret (size, md5))
    (fun e =>
       log (match e with
            | ClientError => LogUploadFailed filepath
            | _ => LogUploadUnexpected filepath
            end) ;;;
       raise e).

Definition insert_into_database (w : World) (filepath key stype : string)
    (size : Z) (md5 : option string) (st : string) : M unit :=
  try_except
    (execute w (Upsert filepath key stype (Some size) md5 st) (fun _ => tt) ;;;
     commit w)
    (fun e => log LogInsertFailed ;;; rollback ;;; raise e).

Definition is_image_file (w : World) (filepath : string) : bool :=
  is_file w filepath
  && bool_decide (lower (PosixPath.suffix filepath) ∈ IMAGE_EXTENSIONS)
  && negb (existsb (fun excluded =>
                      bool_decide (excluded ∈ PosixPath.parts filepath))
                   EXCLUDE_DIRS).

Definition find_image_files (w : World) (base_dir : string) : list string :=
  if negb (path_exists w base_dir) then []
  else filter (fun filepath => is_image_file w filepath = true) (rglob w base_dir).

(** The counters of the upload pass. *)
Record Counts := mkCounts {
  uploaded_count : nat;
  error_count : nat;
  skipped_count : nat
}.

(** The body of the loop of [scan_and_upload] for one candidate. *)
Definition scan_body (w : World) (bucket stype source_path_resolved : string)
    (dry_run : bool) (filepath : string) (n : Counts) : M Counts :=
  try_except
    (db_record <- file_in_database w filepath ;;
     if match db_record with
        | Some (_, st) => String.eqb st "uploaded"
        | None => false
        end
     then ret (mkCounts (uploaded_count n) (error_count n) (S (skipped_count n)))
     else
       let key := get_s3_key w filepath stype source_path_resolved in
       sm <- upload_file_to_s3 w bucket filepath key stype dry_run ;;
       (if dry_run then ret tt
        else insert_into_database w filepath key stype sm.1 sm.2 "uploaded") ;;;
       ret (mkCounts (S (uploaded_count n)) (error_count n) (skipped_count n)))
    (fun e =>
       log (LogErrorProcessing filepath) ;;;
       (if dry_run then ret tt
        else
          try_except
            (let key := get_s3_key w filepath stype source_path_resolved in
             execute w (UpsertError filepath key stype) (fun _ => tt) ;;;
             commit w)
            (fun _ => rollback)) ;;;
       ret (mkCounts (uploaded_count n) (S (error_count n)) (skipped_count n))).

Definition scan_and_upload (w : World) (bucket stype source_path : string)
    (dry_run : bool) : M unit :=
  if negb (path_exists w source_path) then log (LogSourceMissing source_path)
  else
    let source_path_resolved := path_resolve w source_path in
    log (LogScanning stype source_path) ;;;
    n <- for_each (scan_body w bucket stype source_path_resolved dry_run)
           (find_image_files w source_path) (mkCounts 0 0 0) ;;
    log (LogCompleted stype (uploaded_count n) (skipped_count n) (error_count n)).

(** The body of the loop of [sync_deletions] for one listed row; the
    counters are [(deleted_count, error_count)]. *)
Definition sync_body (w : World) (bucket : string) (dry_run : bool)
    (db_file : string * string) (n : nat * nat) : M (nat * nat) :=
  let db_file_path := db_file.1 in
  let key := db_file.2 in
  if path_exists w db_file_path then ret n
  else if dry_run then
    log (LogWouldDelete db_file_path bucket key) ;;;
    ret (S n.1, n.2)
  else
    try_except
      (record <- execute w (SelectRecord db_file_path)
                   (fun t => s3_backups t !! db_file_path) ;;
       match record with
       | Some r =>
           let s3_full_path := ("s3://" ++ bucket ++ "/" ++ s3_key r)%string in
           execute w
             (InsertDeleted
                (mkDeletedRecord db_file_path (s3_key r) s3_full_path
                   (source_type r) (file_size r) (uploaded_at r)
                   (md5_checksum r) (status r) 0))
             (fun _ => tt) ;;;
           s3_delete_object w bucket key ;;;
           execute w (DeleteByPath db_file_path) (fun _ => tt) ;;;
           commit w ;;;
           log (LogDeleted db_file_path s3_full_path) ;;;
           ret (S n.1, n.2)
       | None =>
           log (LogRecordNotFound db_file_path) ;;;
           rollback ;;;
           ret n
       end)
      (fun e =>
         log (match e with
              | ClientError => LogDeleteFailed key
              | _ => LogDeleteUnexpected key
              end) ;;;
         rollback ;;;
         ret (n.1, S n.2)).

Definition sync_deletions (w : World) (bucket stype source_path : string)
    (dry_run : bool) : M unit :=
  if negb (path_exists w source_path) then log (LogNotAccessible source_path)
  else
    let source_path_resolved := path_resolve w source_path in
    log (LogSyncing stype source_path) ;;;
    db_files <- execute w (SelectUploadedLike stype (source_path_resolved ++ "%"))
                  (uploaded_like stype (source_path_resolved ++ "%")) ;;
    n <- for_each (sync_body w bucket dry_run) db_files (0, 0) ;;
    log (LogDeletionComplete stype n.1 n.2).

(** The password [get_db_connection] connects with, given the lines of the
    credentials file: the text after the first colon of the first line that
    starts with ["image_server:"], stripped; [None] when no line does, where
    the function raises [ValueError].  Later lines are not looked at,
    whether the connection succeeds or not. *)
Fixpoint credentials_password (lines : list Text) : option Text :=
  match lines with
  | [] => None
  | line :: rest =>
      if starts_with (text "image_server:") line then
        match after_first 58 line with
        | Some after => Some (strip after)
        | None => None
        end
      else credentials_password rest
  end.

(** The loop of [main] over the lines the configuration script prints:
    a line with an equals sign sets the variable named before the first one
    to the text after it.  [os.environ] refuses an empty name with a
    [ValueError], which nothing catches: [None] stands for it.  (The lines
    are taken to hold no NUL character, which it refuses as well.) *)
Fixpoint load_env (lines : list string) (environ : gmap string string)
    : option (gmap string string) :=
  match lines with
  | [] => Some environ
  | line :: rest =>
      match split_once "=" line with
      | Some (key, value) =>
          if String.eqb key "" then None
          else load_env rest (<[key := value]> environ)
      | None => load_env rest environ
      end
  end.

(** The passes [main] runs once the ledger and the object store are
    connected, in the order of the source: the three upload passes, then
    the three deletion passes.  An exception of one of them ends the
    sequence. *)
Definition run_passes (w : World)
    (bucket internal_path external_path immich_path : string)
    (dry_run : bool) : M unit :=
  scan_and_upload w bucket "internal" internal_path dry_run ;;;
  scan_and_upload w bucket "external" external_path dry_run ;;;
  scan_and_upload w bucket "immich_upload" immich_path dry_run ;;;
  sync_deletions w bucket "internal" internal_path dry_run ;;;
  sync_deletions w bucket "external" external_path dry_run ;;;
  sync_deletions w bucket "immich_upload" immich_path dry_run.

(* ===================================================================== *)
(** ** The vocabulary of the properties *)
(* ===================================================================== *)

(** The resolved file lies inside the resolved source root: the components
    of the root are the leading components of the file. *)
Definition inside_root (w : World) (filepath source_path : string) : Prop :=
  PosixPath.components (cwd w) (path_resolve w source_path)
    `prefix_of` PosixPath.components (cwd w) (path_resolve w filepath).

(** What [os.path.relpath] gives for this file and root. *)
Definition relative (w : World) (filepath source_path : string) : option string :=
  PosixPath.relpath (cwd w) (path_resolve w filepath) (path_resolve w source_path).

(** The transaction is clean: nothing is pending and nothing failed. *)
Definition clean (c : Conn) : Prop :=
  current c = committed c /\ aborted c = false.

(** Neither the tables (durable or as the transaction sees them) nor the
    object store changed from [s] to [s']. *)
Definition same_stores (s s' : State) : Prop :=
  committed (conn s') = committed (conn s)
  /\ current (conn s') = current (conn s)
  /\ s3_calls s' = s3_calls s.

(** The ledger holds [p] as already archived. *)
Definition is_uploaded (t : Tables) (p : string) : bool :=
  match s3_backups t !! p with
  | Some r => String.eqb (status r) "uploaded"
  | None => false
  end.

(** The server accepts the [k] statements sent from the [n]-th on. *)
Definition accepts (w : World) (n k : nat) : Prop :=
  forall i stmt, n <= i < n + k -> db_fails w i stmt = false.

(** The server never refuses a statement. *)
Definition db_reliable (w : World) : Prop :=
  forall n stmt, db_fails w n stmt = false.

(** The audit row written for a live record. *)
Definition audit_row (bucket p : string) (rec : BackupRecord) (t_del : nat)
    : DeletedRecord :=
  mkDeletedRecord p (s3_key rec) ("s3://" ++ bucket ++ "/" ++ s3_key rec)%string
    (source_type rec) (file_size rec) (uploaded_at rec) (md5_checksum rec)
    (status rec) t_del.

(** The tables after the record of [p] moved to the audit table. *)
Definition moved (bucket p : string) (rec : BackupRecord) (t_del : nat)
    (t : Tables) : Tables :=
  mkTables (delete p (s3_backups t))
    (s3_backups_deleted t ++ [audit_row bucket p rec t_del]).

(** Some step of the deletion sequence for [p] fails, the transaction
    having issued [n] statements so far. *)
Definition deletion_step_fails (w : World) (n : nat) (bucket p key : string)
    (rec : BackupRecord) : bool :=
  db_fails w n (SelectRecord p)
  || db_fails w (S n) (InsertDeleted (audit_row bucket p rec 0))
  || bool_decide (delete_fails w key <> None)
  || db_fails w (S (S n)) (DeleteByPath p)
  || db_fails w (S (S (S n))) Commit.

(** The loop of the upload pass over the candidates [l]. *)
Definition scan_loop (w : World) (bucket stype spr : string) (dry_run : bool)
    (l : list string) (n : Counts) : M Counts :=
  for_each (scan_body w bucket stype spr dry_run) l n.

(** A [PutObject] of the file [p]. *)
Definition is_put_of (p : string) (c : S3Call) : bool :=
  match c with
  | PutObject _ _ fp _ _ => String.eqb fp p
  | DeleteObject _ _ => false
  end.

(** How many times the calls upload the file [p]. *)
Definition uploads_of (p : string) (calls : list S3Call) : nat :=
  length (List.filter (is_put_of p) calls).

(** Every candidate of [l] can be read and sent. *)
Definition uploads_succeed (w : World) (stype spr : string) (l : list string) : Prop :=
  forall fp, fp ∈ l ->
    getsize w fp <> None /\ upload_fails w fp (get_s3_key w fp stype spr) = None.



(** Reading or sending the file [fp] raises. *)
Definition upload_raises (w : World) (fp key : string) : Prop :=
  getsize w fp = None \/ upload_fails w fp key <> None.

(** No character of [s] is special in a [LIKE] pattern. *)
Fixpoint like_literal (s : string) : bool :=
  match s with
  | EmptyString => true
  | String c s' =>
      negb (Ascii.eqb c "%") && negb (Ascii.eqb c "_") && negb (Ascii.eqb c "\")
      && like_literal s'
  end.

(** A ledger path lies under a root when the components of the root are the
    leading components of the path. *)
Definition path_under (w : World) (root filepath : string) : Prop :=
  PosixPath.components (cwd w) root
    `prefix_of` PosixPath.components (cwd w) filepath.


(** What one candidate of a real run can do to the durable tables and the
    object store, whatever fails: at most one upload of the file, and at
    most one committed upsert of its own row. *)
Definition scan_step_effect (bucket stype key fp : string) (s s' : State) : Prop :=
  (s3_calls s' = s3_calls s
   \/ exists size, s3_calls s' = s3_calls s ++ [PutObject bucket key fp stype size])
  /\ (committed (conn s') = committed (conn s)
      \/ (exists t_now size md5,
            committed (conn s')
            = stmt_effect t_now (Upsert fp key stype (Some size) md5 "uploaded")
                (committed (conn s)))
      \/ (exists t_now,
            committed (conn s')
            = stmt_effect t_now (UpsertError fp key stype) (committed (conn s)))).

(** What the upload pass over the candidates [l] may change: it appends
    uploads of candidates to the calls of the object store and rewrites rows
    of candidates; the audit table, the rows of other paths and the
    existence of every row are kept. *)
Definition upload_pass_frame (bucket stype : string) (l : list string)
    (s s' : State) : Prop :=
  s3_backups_deleted (committed (conn s')) = s3_backups_deleted (committed (conn s))
  /\ (forall p, p ∉ l ->
        s3_backups (committed (conn s')) !! p = s3_backups (committed (conn s)) !! p)
  /\ (forall p, is_Some (s3_backups (committed (conn s)) !! p) ->
                is_Some (s3_backups (committed (conn s')) !! p))
  /\ exists new,
       s3_calls s' = s3_calls s ++ new
       /\ Forall (fun c => exists key fp size,
                    c = PutObject bucket key fp stype size /\ fp ∈ l) new.

(** What one listed row of the deletion pass can do, whatever fails: the
    committed tables stay, or the record of the path, whose file is gone,
    moves to the audit table; at most one remote delete, of the listed key,
    and only when the file is gone. *)
Definition sync_step_effect (w : World) (bucket p key : string) (s s' : State)
    : Prop :=
  (committed (conn s') = committed (conn s)
   \/ exists rec t_del,
        s3_backups (committed (conn s)) !! p = Some rec
        /\ path_exists w p = false
        /\ committed (conn s') = moved bucket p rec t_del (committed (conn s)))
  /\ (s3_calls s' = s3_calls s
      \/ (path_exists w p = false
          /\ s3_calls s' = s3_calls s ++ [DeleteObject bucket key])).

(** What the deletion pass over the listed rows [l] may change: records can
    only disappear, and only those of listed paths whose file is gone; the
    audit table only grows at its end; the only calls to the object store are
    deletes of listed keys whose file is gone. *)
Definition deletion_pass_frame (w : World) (bucket : string)
    (l : list (string * string)) (s s' : State) : Prop :=
  s3_backups (committed (conn s')) ⊆ s3_backups (committed (conn s))
  /\ s3_backups_deleted (committed (conn s))
       `prefix_of` s3_backups_deleted (committed (conn s'))
  /\ (forall p, path_exists w p = true \/ (forall k, (p, k) ∉ l) ->
        s3_backups (committed (conn s')) !! p = s3_backups (committed (conn s)) !! p)
  /\ exists new,
       s3_calls s' = s3_calls s ++ new
       /\ Forall (fun c => exists p k,
                    c = DeleteObject bucket k /\ (p, k) ∈ l
                    /\ path_exists w p = false) new.

(** The ledger holds [p] as uploaded for [stype], the path starts with the
    text of [root], and the file is gone. *)
Definition stale (w : World) (stype root : string) (t : Tables) (p : string)
    : bool :=
  match s3_backups t !! p with
  | Some rec =>
      bool_decide (source_type rec = stype)
      && String.eqb (status rec) "uploaded"
      && String.prefix root p
      && negb (path_exists w p)
  | None => false
  end.

(** The extensions as written in the source, before the upper-case copies
    are added. *)
Definition lower_extensions : list string :=
  [".jpg"; ".jpeg"; ".raw"; ".cr2"; ".nef"; ".arw"; ".dng"; ".tif"; ".tiff";
   ".png"; ".raf"].

(** The string holds no slash. *)
Fixpoint no_slash (s : string) : bool :=
  match s with
  | EmptyString => true
  | String c s' => negb (Ascii.eqb c "/") && no_slash s'
  end.

(** The string holds no equals sign. *)
Fixpoint no_equals (s : string) : bool :=
  match s with
  | EmptyString => true
  | String c s' => negb (Ascii.eqb c "=") && no_equals s'
  end.

(** The host [w] with other answers to the reads of sizes and of
    fingerprints. *)
Definition with_reads (w : World) (sizes : string -> option Z)
    (digests : string -> option string) : World :=
  mkWorld (cwd w) (path_exists w) (path_resolve w) (rglob w) (is_file w)
    sizes digests (upload_fails w) (delete_fails w) (db_fails w) (now w).


(* ===================================================================== *)
(** ** A concrete host *)
(* ===================================================================== *)

Module Example.

(** A host whose image root [/data/images] lists two images, a thumbnail
    and a text file.  [present] are the paths that exist, [unreadable] the
    files whose fingerprint cannot be read, [broken] the files whose upload
    the object store refuses.  No path is a symbolic link, the server
    accepts every statement, and every file has ten bytes. *)
Definition host (present unreadable broken : list string) : World :=
  mkWorld "/"
    (fun p => bool_decide (p ∈ present))
    (fun p => p)
    (fun p => if String.eqb p "/data/images"
              then ["/data/images/a.jpg"; "/data/images/b.jpg";
                    "/data/images/thumbs/c.jpg"; "/data/images/notes.txt"]
              else [])
    (fun _ => true)
    (fun _ => Some 10%Z)
    (fun p => if bool_decide (p ∈ unreadable) then None else Some "9e107d9d")
    (fun p _ => if bool_decide (p ∈ broken) then Some ClientError else None)
    (fun _ => None)
    (fun _ _ => false)
    (fun n => 100 + n).

Definition images : list string :=
  ["/data/images"; "/data/images/a.jpg"; "/data/images/b.jpg"].

(** A record as a successful upload leaves it. *)
Definition archived (key stype : string) : BackupRecord :=
  mkBackupRecord key stype (Some 10%Z) (Some "9e107d9d") "uploaded" (Some 7).

(** A state with the given ledger and nothing pending. *)
Definition at_rest (live : gmap string BackupRecord) : State :=
  let t := mkTables live [] in
  mkState (mkConn t t false 0) [] [].

(** A host whose image root, [/srv/backups/photos], lies below a directory
    that bears the name of an excluded one. *)
Definition vault : World :=
  mkWorld "/"
    (fun _ => true)
    (fun p => p)
    (fun p => if String.eqb p "/srv/backups/photos"
              then ["/srv/backups/photos/a.jpg"; "/srv/backups/photos/2024/b.png"]
              else [])
    (fun _ => true)
    (fun _ => Some 10%Z)
    (fun _ => Some "9e107d9d")
    (fun _ _ => None)
    (fun _ => None)
    (fun _ _ => false)
    (fun n => 100 + n).

(** A host without files whose server refuses every [DELETE] on the live
    table and accepts the other statements. *)
Definition refusing_deletes : World :=
  mkWorld "/"
    (fun _ => false)
    (fun p => p)
    (fun _ => [])
    (fun _ => false)
    (fun _ => None)
    (fun _ => None)
    (fun _ _ => None)
    (fun _ => None)
    (fun _ stmt => match stmt with DeleteByPath _ => true | _ => false end)
    (fun n => 100 + n).


(** A host where the image root exists, its files are gone, and no size or
    fingerprint can be read. *)
Definition unreadable : World :=
  let h := host ["/data/images"] [] [] in
  mkWorld (cwd h) (path_exists h) (path_resolve h) (rglob h) (is_file h)
    (fun _ => None) (fun _ => None) (upload_fails h) (delete_fails h)
    (db_fails h) (now h).

End Example.

(* ===================================================================== *)
(** ** Remote-key derivation *)
(* ===================================================================== *)

Module KeyDerivation.
Import PosixPath.

Lemma prefix_char_false (c : ascii) (d : ascii) (s : string) :
  d <> c -> String.prefix (String c EmptyString) (String d s) = false.
Proof.
  intros Hne. simpl. destruct (ascii_dec c d) as [->|]; [congruence | reflexivity].
Qed.

Lemma split_on_no_leading_sep (sep : ascii) (s : string) :
  Forall (fun c => String.prefix (String sep EmptyString) c = false)
    (split_on sep s).
Proof.
  induction s as [|c s IH]; simpl.
  - constructor; [reflexivity | constructor].
  - destruct (Ascii.eqb_spec c sep) as [->|Hne].
    + constructor; [reflexivity | exact IH].
    + destruct (split_on sep s) as [|h t].
      * constructor; [|constructor]. now apply prefix_char_false.
      * inversion IH; subst. constructor; [|assumption].
        now apply prefix_char_false.
Qed.

Lemma components_no_leading_slash (cw p : string) :
  Forall (fun c => String.prefix "/" c = false) (components cw p).
Proof.
  unfold components.
  pose proof (split_on_no_leading_sep "/" (abspath cw p)) as H.
  rewrite Forall_forall in *. intros c Hc.
  apply list_elem_of_filter in Hc as [_ Hc]. now apply H.
Qed.

Lemma prefix_append (p a b : string) :
  String.prefix p a = true -> String.prefix p (a ++ b) = true.
Proof.
  revert a. induction p as [|c p IH]; intros a H.
  - now destruct (a ++ b)%string.
  - destruct a as [|d a]; simpl in *; [discriminate|].
    destruct (ascii_dec c d); [now apply IH | discriminate].
Qed.

Lemma join2_keeps_prefix (p a b : string) :
  String.prefix "/" b = false ->
  String.prefix p a = true -> String.prefix p (join2 a b) = true.
Proof.
  intros Hb Ha. unfold join2. rewrite Hb.
  destruct (String.eqb a "" || ends_with_slash a); now apply prefix_append.
Qed.

Lemma join_keeps_prefix (p a : string) (l : list string) :
  Forall (fun c => String.prefix "/" c = false) l ->
  String.prefix p a = true -> String.prefix p (join a l) = true.
Proof.
  unfold join. revert a. induction l as [|b l IH]; intros a Hl Ha; simpl.
  - exact Ha.
  - inversion Hl; subst. apply IH; [assumption|].
    now apply join2_keeps_prefix.
Qed.

Lemma common_prefix_len_le (l1 l2 : list string) :
  common_prefix_len l1 l2 <= length l1.
Proof.
  revert l2. induction l1 as [|a l1 IH]; intros [|b l2]; simpl; try lia.
  destruct (String.eqb a b); [specialize (IH l2)|]; lia.
Qed.

Lemma common_prefix_len_full (l1 l2 : list string) :
  common_prefix_len l1 l2 = length l1 -> l1 `prefix_of` l2.
Proof.
  revert l2. induction l1 as [|a l1 IH]; intros l2 H.
  - apply prefix_nil.
  - destruct l2 as [|b l2]; simpl in H; [discriminate|].
    destruct (String.eqb_spec a b) as [->|]; [|discriminate].
    apply prefix_cons, IH. lia.
Qed.

Lemma common_prefix_len_app (l r : list string) :
  common_prefix_len l (l ++ r) = length l.
Proof.
  induction l as [|a l IH]; simpl.
  - now destruct r.
  - rewrite String.eqb_refl. now rewrite IH.
Qed.

(** Outside the root, [relpath] starts with a parent-directory step. *)
Lemma relative_outside (w : World) (filepath source_path r : string) :
  ~ inside_root w filepath source_path ->
  relative w filepath source_path = Some r ->
  String.prefix ".." r = true.
Proof.
  unfold inside_root, relative, relpath. intros Hout.
  destruct (String.eqb (path_resolve w filepath) ""); [discriminate|].
  set (sl := components (cwd w) (path_resolve w source_path)) in *.
  set (pl := components (cwd w) (path_resolve w filepath)) in *.
  pose proof (common_prefix_len_le sl pl) as Hle.
  destruct (decide (common_prefix_len sl pl = length sl)) as [Heq|Hne].
  { exfalso. apply Hout. now apply common_prefix_len_full. }
  destruct (length sl - common_prefix_len sl pl) as [|k] eqn:Hk; [lia|].
  simpl. intros [= <-].
  apply join_keeps_prefix; [|reflexivity].
  apply Forall_app. split.
  - clear. induction k; simpl; constructor; auto.
  - apply Forall_drop, components_no_leading_slash.
Qed.

(** Inside the root, [relpath] is the join of the components below it. *)
Lemma relative_inside (w : World) (filepath source_path : string) (rest : list string) :
  path_resolve w filepath <> "" ->
  components (cwd w) (path_resolve w filepath)
    = components (cwd w) (path_resolve w source_path) ++ rest ->
  relative w filepath source_path
    = Some match rest with [] => "." | a :: p => join a p end.
Proof.
  intros Hne Hc. unfold relative, relpath.
  destruct (String.eqb_spec (path_resolve w filepath) ""); [contradiction|].
  rewrite Hc, common_prefix_len_app, Nat.sub_diag, drop_app_length. simpl.
  now destruct rest.
Qed.

Lemma get_s3_key_fallback (w : World) (filepath stype source_path : string) :
  (relative w filepath source_path = None
   \/ exists r, relative w filepath source_path = Some r
                /\ String.prefix ".." r = true) ->
  get_s3_key w filepath stype source_path
    = (stype ++ "/" ++ replace_backslash (name filepath))%string.
Proof.
  unfold get_s3_key, relative. intros [-> | (r & -> & Hr)].
  - now destruct (String.prefix ".." (name filepath)).
  - now rewrite Hr.
Qed.

Lemma get_s3_key_relative (w : World) (filepath stype source_path r : string) :
  relative w filepath source_path = Some r ->
  String.prefix ".." r = false ->
  get_s3_key w filepath stype source_path
    = (stype ++ "/" ++ replace_backslash r)%string.
Proof.
  unfold get_s3_key, relative. intros -> Hr. now rewrite Hr.
Qed.

End KeyDerivation.

(* ===================================================================== *)
(** ** Reasoning about runs *)
(* ===================================================================== *)

Lemma same_stores_refl s : same_stores s s.
Proof. now repeat split. Qed.

Lemma same_stores_trans s1 s2 s3 :
  same_stores s1 s2 -> same_stores s2 s3 -> same_stores s1 s3.
Proof.
  intros (A1 & A2 & A3) (B1 & B2 & B3).
  repeat split; congruence.
Qed.

(** A loop whose body keeps a preorder on states keeps it as a whole,
    whether or not the body raises. *)
Lemma for_each_preserves {A S} (R : State -> State -> Prop)
    (body : A -> S -> M S) :
  (forall s, R s s) ->
  (forall s1 s2 s3, R s1 s2 -> R s2 s3 -> R s1 s3) ->
  (forall x acc s, R s (body x acc s).2) ->
  forall l acc s, R s (for_each body l acc s).2.
Proof.
  intros Hrefl Htrans Hbody. induction l as [|x l IH]; intros acc s; simpl.
  - apply Hrefl.
  - unfold bind. pose proof (Hbody x acc s) as Hx.
    destruct (body x acc s) as [[acc'|e] s']; simpl in *.
    + eapply Htrans; [exact Hx | apply IH].
    + exact Hx.
Qed.

(** When the body never raises, the loop runs to the end of the list. *)
Lemma for_each_cons_ok {A S} (body : A -> S -> M S) x l acc acc' s s' :
  body x acc s = (Ok acc', s') ->
  for_each body (x :: l) acc s = for_each body l acc' s'.
Proof. intros H. simpl. unfold bind. now rewrite H. Qed.

Lemma execute_ok {R} w stmt (rows : Tables -> R) s :
  aborted (conn s) = false ->
  db_fails w (issued (conn s)) stmt = false ->
  execute w stmt rows s
  = (Ok (rows (current (conn s))),
     set_conn (mkConn (committed (conn s))
                 (stmt_effect (now w (issued (conn s))) stmt (current (conn s)))
                 false (S (issued (conn s)))) s).
Proof. intros Ha Hf. unfold execute. now rewrite Ha, Hf. Qed.

Lemma execute_refused {R} w stmt (rows : Tables -> R) s :
  aborted (conn s) || db_fails w (issued (conn s)) stmt = true ->
  execute w stmt rows s
  = (Raise DatabaseError,
     set_conn (mkConn (committed (conn s)) (current (conn s)) true
                 (S (issued (conn s)))) s).
Proof. intros H. unfold execute. now rewrite H. Qed.

(** A query leaves the tables alone, accepted or not. *)
Lemma execute_query_same_stores {R} w stmt (rows : Tables -> R) s :
  (forall t_now t, stmt_effect t_now stmt t = t) ->
  same_stores s (execute w stmt rows s).2.
Proof.
  intros Hq. unfold execute.
  destruct (aborted (conn s) || db_fails w (issued (conn s)) stmt); simpl;
    repeat split; simpl; auto.
Qed.

Lemma upload_dry_run_same_stores w bucket filepath key stype s :
  same_stores s (upload_file_to_s3 w bucket filepath key stype true s).2.
Proof.
  unfold upload_file_to_s3, try_except, bind, os_path_getsize, calculate_md5,
    ret, raise, log, bind.
  destruct (getsize w filepath); simpl;
    [destruct (read_md5 w filepath); simpl|]; repeat split.
Qed.

Lemma scan_body_dry_run_same_stores w bucket stype spr filepath n s :
  same_stores s (scan_body w bucket stype spr true filepath n s).2.
Proof.
  unfold scan_body, try_except, bind, file_in_database.
  pose proof (execute_query_same_stores w (SelectByPath filepath)
    (fun t => (fun r => (s3_key r, status r)) <$> s3_backups t !! filepath) s
    (fun _ _ => eq_refl)) as H1.
  destruct (execute w (SelectByPath filepath) _ s) as [[rec|e] s1]; simpl in H1.
  - destruct (match rec with Some (_, st) => String.eqb st "uploaded" | None => false end).
    + exact H1.
    + pose proof (upload_dry_run_same_stores w bucket filepath
        (get_s3_key w filepath stype spr) stype s1) as H2.
      destruct (upload_file_to_s3 w bucket filepath _ stype true s1) as [[sm|e] s2];
        simpl in *; eapply same_stores_trans; eauto;
        unfold same_stores; simpl; auto.
  - eapply same_stores_trans; [exact H1|]. unfold same_stores; simpl; auto.
Qed.

Lemma sync_body_dry_run_same_stores w bucket db_file n s :
  same_stores s (sync_body w bucket true db_file n s).2.
Proof.
  unfold sync_body.
  destruct (path_exists w db_file.1); simpl; repeat split.
Qed.

Lemma log_same_stores e s : same_stores s (log e s).2.
Proof. repeat split. Qed.

(** The test [db_record and db_record[2] == 'uploaded'] of the loop. *)
Lemma db_record_uploaded t p :
  match (fun r => (s3_key r, status r)) <$> s3_backups t !! p with
  | Some (_, st) => String.eqb st "uploaded"
  | None => false
  end = is_uploaded t p.
Proof. unfold is_uploaded. now destruct (s3_backups t !! p). Qed.

(** An archived candidate is passed over, and when its lookup fails the
    error upsert is refused too (the transaction is aborted) and rolled
    back: either way nothing changes. *)
Lemma scan_body_uploaded_skipped w bucket stype spr dry_run fp n s :
  clean (conn s) -> is_uploaded (committed (conn s)) fp = true ->
  same_stores s (scan_body w bucket stype spr dry_run fp n s).2
  /\ exists n', (scan_body w bucket stype spr dry_run fp n s).1 = Ok n'.
Proof.
  intros [Hcur Hab] Hup.
  unfold scan_body, try_except, bind, file_in_database, execute.
  rewrite Hab. simpl.
  destruct (db_fails w (issued (conn s)) (SelectByPath fp)) eqn:Hf; simpl.
  - destruct dry_run; simpl.
    + split; [repeat split | eauto].
    + split; [|eauto]. unfold same_stores; simpl. now rewrite Hcur.
  - rewrite db_record_uploaded, Hcur, Hup. simpl.
    split; [|eauto]. repeat split; simpl; auto.
Qed.

(** Case analysis on the scrutinee of an innermost [match]. *)
Ltac break_match :=
  match goal with
  | |- context [match ?x with _ => _ end] =>
      lazymatch x with
      | context [match _ with _ => _ end] => fail
      | _ => destruct x eqn:?
      end
  end.

(** The step of a candidate never raises: every exception is caught. *)
Lemma scan_body_total w bucket stype spr dry_run fp n s :
  exists n', (scan_body w bucket stype spr dry_run fp n s).1 = Ok n'.
Proof.
  unfold scan_body, try_except, bind, file_in_database, upload_file_to_s3,
    insert_into_database, try_except, bind, execute, commit, rollback,
    os_path_getsize, calculate_md5, s3_upload_fileobj, log, ret, raise, bind.
  repeat (break_match; simpl in *; try discriminate); eauto.
Qed.

(** Outside a dry run, every path through the step ends in a commit or a
    rollback, or sends a query only. *)
Lemma scan_body_keeps_clean w bucket stype spr fp n s :
  clean (conn s) ->
  clean (conn (scan_body w bucket stype spr false fp n s).2).
Proof.
  intros [Hcur Hab].
  unfold scan_body, try_except, bind, file_in_database, upload_file_to_s3,
    insert_into_database, try_except, bind, execute, commit, rollback,
    os_path_getsize, calculate_md5, s3_upload_fileobj, log, ret, raise, bind.
  rewrite Hab. simpl.
  repeat (break_match; simpl in *; try discriminate);
   repeat match goal with H : (_, _) = (_, _) |- _ => inversion H; subst; clear H end;
   simpl in *; try (split; simpl; congruence).
Qed.

(** Unfolds the program down to the primitive calls. *)
Ltac unfold_run :=
  unfold scan_body, sync_body, try_except, bind, file_in_database, upload_file_to_s3,
    insert_into_database, try_except, bind, execute, commit, rollback,
    os_path_getsize, calculate_md5, s3_upload_fileobj, s3_delete_object,
    log, ret, raise, bind.

(** What the step of a candidate does when the server accepts its three
    statements: it passes over an archived file, uploads and records a file
    that can be read and sent, and marks any other as failed. *)
Lemma scan_body_outcome w bucket stype spr fp n s :
  clean (conn s) ->
  accepts w (issued (conn s)) 3 ->
  let r := scan_body w bucket stype spr false fp n s in
  let t := committed (conn s) in
  let key := get_s3_key w fp stype spr in
  let t_now := now w (S (issued (conn s))) in
  clean (conn r.2) /\
  if is_uploaded t fp then
    r.1 = Ok (mkCounts (uploaded_count n) (error_count n) (S (skipped_count n)))
    /\ committed (conn r.2) = t /\ s3_calls r.2 = s3_calls s
  else
    match getsize w fp, upload_fails w fp key with
    | Some sz, None =>
        r.1 = Ok (mkCounts (S (uploaded_count n)) (error_count n) (skipped_count n))
        /\ committed (conn r.2)
           = stmt_effect t_now (Upsert fp key stype (Some sz) (read_md5 w fp) "uploaded") t
        /\ s3_calls r.2 = s3_calls s ++ [PutObject bucket key fp stype sz]
    | _, _ =>
        r.1 = Ok (mkCounts (uploaded_count n) (S (error_count n)) (skipped_count n))
        /\ committed (conn r.2) = stmt_effect t_now (UpsertError fp key stype) t
        /\ s3_calls r.2 = s3_calls s
    end.
Proof.
  intros [Hcur Hab] Hacc. cbv zeta.
  split; [apply scan_body_keeps_clean; now split|].
  unfold_run. rewrite Hab. simpl.
  rewrite (Hacc (issued (conn s)) (SelectByPath fp)) by lia. simpl.
  rewrite db_record_uploaded, Hcur.
  destruct (is_uploaded (committed (conn s)) fp); simpl; [auto|].
  destruct (getsize w fp) as [sz|] eqn:Hsz; simpl.
  - destruct (read_md5 w fp) as [d|] eqn:Hmd; simpl;
      (destruct (upload_fails w fp _) as [e|] eqn:Hup; simpl;
       [destruct e; simpl|]; repeat (rewrite Hacc by lia; simpl); auto).
  - repeat (rewrite Hacc by lia; simpl). auto.
Qed.

(** The step of a listed row never raises. *)
Lemma sync_body_total w bucket dry_run db_file n s :
  exists n', (sync_body w bucket dry_run db_file n s).1 = Ok n'.
Proof.
  unfold_run.
  repeat (break_match; simpl in *; try discriminate); eauto.
Qed.

Lemma sync_body_keeps_clean w bucket dry_run db_file n s :
  clean (conn s) ->
  clean (conn (sync_body w bucket dry_run db_file n s).2).
Proof.
  intros [Hcur Hab]. unfold_run.
  destruct (path_exists w db_file.1); simpl; [now split|].
  destruct dry_run; simpl; [now split|].
  rewrite Hab. simpl.
  repeat (break_match; simpl in *; try discriminate);
   repeat match goal with H : (_, _) = (_, _) |- _ => inversion H; subst; clear H end;
   simpl in *; try (split; simpl; congruence).
Qed.

(** What the step of a listed row whose file is gone does to the committed
    tables. *)
Lemma sync_body_outcome w bucket p key n s :
  clean (conn s) ->
  path_exists w p = false ->
  let r := sync_body w bucket false (p, key) n s in
  let t := committed (conn s) in
  match s3_backups t !! p with
  | Some rec =>
      if deletion_step_fails w (issued (conn s)) bucket p key rec then
        committed (conn r.2) = t
      else
        r.1 = Ok (S n.1, n.2)
        /\ committed (conn r.2)
           = moved bucket p rec (now w (S (issued (conn s)))) t
        /\ s3_calls r.2 = s3_calls s ++ [DeleteObject bucket key]
  | None => committed (conn r.2) = t /\ s3_calls r.2 = s3_calls s
  end.
Proof.
  intros [Hcur Hab] Hex. cbv zeta. unfold deletion_step_fails, moved, audit_row.
  unfold_run. simpl. rewrite Hex, Hab. simpl.
  destruct (db_fails w (issued (conn s)) (SelectRecord p)) eqn:H0; simpl.
  { now destruct (s3_backups (committed (conn s)) !! p). }
  rewrite Hcur.
  destruct (s3_backups (committed (conn s)) !! p) as [rec|] eqn:Hrec; simpl; [|auto].
  destruct (db_fails w (S (issued (conn s))) _) eqn:H1; simpl; [reflexivity|].
  destruct (delete_fails w key) as [e|] eqn:H2; simpl.
  { rewrite ?orb_true_r. simpl. now destruct e. }
  rewrite ?orb_false_r. simpl.
  destruct (db_fails w (S (S (issued (conn s)))) _) eqn:H3; simpl; [reflexivity|].
  destruct (db_fails w (S (S (S (issued (conn s))))) Commit) eqn:H4; simpl; auto.
Qed.

Lemma scan_loop_total w bucket stype spr dry_run l n s :
  exists n', (scan_loop w bucket stype spr dry_run l n s).1 = Ok n'.
Proof.
  unfold scan_loop. revert n s. induction l as [|x l IH]; intros n s; simpl.
  - eauto.
  - unfold bind.
    destruct (scan_body_total w bucket stype spr dry_run x n s) as [n' Hn'].
    destruct (scan_body w bucket stype spr dry_run x n s) as [r s'].
    simpl in Hn'. subst r. apply IH.
Qed.

Lemma scan_loop_keeps_clean w bucket stype spr l n s :
  clean (conn s) ->
  clean (conn (scan_loop w bucket stype spr false l n s).2).
Proof.
  unfold scan_loop. revert n s. induction l as [|x l IH]; intros n s Hc; simpl.
  - exact Hc.
  - unfold bind.
    pose proof (scan_body_keeps_clean w bucket stype spr x n s Hc) as Hc'.
    destruct (scan_body w bucket stype spr false x n s) as [[n'|e] s']; simpl in *.
    + now apply IH.
    + exact Hc'.
Qed.

(** Second run: when every candidate is already archived, the loop touches
    neither the tables nor the object store, whatever fails. *)
Lemma scan_loop_all_uploaded w bucket stype spr l n s :
  clean (conn s) ->
  (forall fp, fp ∈ l -> is_uploaded (committed (conn s)) fp = true) ->
  same_stores s (scan_loop w bucket stype spr false l n s).2.
Proof.
  unfold scan_loop. revert n s. induction l as [|x l IH]; intros n s Hc Hall; simpl.
  - apply same_stores_refl.
  - unfold bind.
    destruct (scan_body_uploaded_skipped w bucket stype spr false x n s Hc)
      as [Hsame [n' Hn']].
    { apply Hall. left. }
    pose proof (scan_body_keeps_clean w bucket stype spr x n s Hc) as Hc'.
    destruct (scan_body w bucket stype spr false x n s) as [r s']. simpl in *.
    subst r. eapply same_stores_trans; [exact Hsame|].
    apply IH; [exact Hc'|].
    intros fp Hfp. destruct Hsame as [-> _]. apply Hall. now right.
Qed.

Lemma is_uploaded_upsert t_now p key stype size md5 t q :
  is_uploaded (stmt_effect t_now (Upsert p key stype size md5 "uploaded") t) q
  = bool_decide (q = p) || is_uploaded t q.
Proof.
  unfold is_uploaded. simpl.
  destruct (decide (q = p)) as [->|Hne].
  - rewrite lookup_insert_eq, bool_decide_true by reflexivity.
    now destruct (s3_backups t !! p).
  - rewrite lookup_insert_ne by congruence.
    now rewrite bool_decide_false by assumption.
Qed.

Lemma uploads_of_app p l1 l2 :
  uploads_of p (l1 ++ l2) = uploads_of p l1 + uploads_of p l2.
Proof. unfold uploads_of. now rewrite List.filter_app, length_app. Qed.

(** First run: with a reliable server and files that can be sent, the loop
    uploads exactly the candidates not yet archived, each once, and leaves
    every candidate archived. *)
Lemma scan_loop_uploads_once w bucket stype spr l n s :
  db_reliable w ->
  clean (conn s) ->
  uploads_succeed w stype spr l ->
  let s' := (scan_loop w bucket stype spr false l n s).2 in
  exists new,
    s3_calls s' = s3_calls s ++ new
    /\ (forall p, uploads_of p new
                  = if is_uploaded (committed (conn s)) p then 0
                    else if bool_decide (p ∈ l) then 1 else 0)
    /\ (forall p, is_uploaded (committed (conn s')) p
                  = is_uploaded (committed (conn s)) p || bool_decide (p ∈ l)).
Proof.
  intros Hrel. unfold scan_loop. revert n s.
  induction l as [|x l IH]; intros n s Hc Hok; cbv zeta; cbn [for_each].
  - exists []. rewrite app_nil_r. split; [reflexivity|]. split; intros p.
    + rewrite bool_decide_false by apply not_elem_of_nil.
      now destruct (is_uploaded _ p).
    + rewrite bool_decide_false by apply not_elem_of_nil. now rewrite orb_false_r.
  - unfold bind.
    pose proof (scan_body_outcome w bucket stype spr x n s Hc) as Hout.
    specialize (Hout (fun i stmt _ => Hrel i stmt)). cbv zeta in Hout.
    destruct Hout as [Hc' Hout].
    destruct (Hok x) as [Hsz Hup]; [left|].
    assert (Hok' : uploads_succeed w stype spr l).
    { intros fp Hfp. apply Hok. now right. }
    destruct (scan_body w bucket stype spr false x n s) as [r s1].
    cbn [fst snd] in *.
    destruct (is_uploaded (committed (conn s)) x) eqn:Hx.
    + destruct Hout as (-> & Hcom & Hcalls).
      destruct (IH (mkCounts (uploaded_count n) (error_count n) (S (skipped_count n)))
                  s1 Hc' Hok') as (new & Hnew & Hcount & Hupl).
      exists new. rewrite Hnew, Hcalls. split; [reflexivity|].
      rewrite Hcom in *. split; intros p.
      * rewrite Hcount. destruct (is_uploaded (committed (conn s)) p) eqn:Hp; [reflexivity|].
        assert (p <> x) by congruence.
        destruct (decide (p ∈ l)) as [Hin|Hnin].
        -- rewrite !bool_decide_true; auto. now right.
        -- rewrite !bool_decide_false; auto.
           intros [->|?]%elem_of_cons; contradiction.
      * rewrite Hupl. destruct (decide (p = x)) as [->|Hne].
        -- now rewrite Hx.
        -- f_equal. apply bool_decide_ext. rewrite elem_of_cons. tauto.
    + destruct (getsize w x) as [sz|]; [|contradiction].
      rewrite Hup in Hout. destruct Hout as (-> & Hcom & Hcalls).
      destruct (IH (mkCounts (S (uploaded_count n)) (error_count n) (skipped_count n))
                  s1 Hc' Hok') as (new & Hnew & Hcount & Hupl).
      exists (PutObject bucket (get_s3_key w x stype spr) x stype sz :: new).
      rewrite Hnew, Hcalls, <- app_assoc. split; [reflexivity|].
      split; intros p.
      * change (PutObject bucket (get_s3_key w x stype spr) x stype sz :: new)
          with ([PutObject bucket (get_s3_key w x stype spr) x stype sz] ++ new).
        rewrite uploads_of_app, Hcount, Hcom, is_uploaded_upsert.
        unfold uploads_of. simpl.
        destruct (decide (p = x)) as [->|Hne].
        -- rewrite String.eqb_refl, bool_decide_true by reflexivity. simpl.
           rewrite Hx. rewrite bool_decide_true by left. reflexivity.
        -- rewrite bool_decide_false by assumption. simpl.
           destruct (String.eqb_spec x p) as [->|_]; [contradiction|]. simpl.
           destruct (is_uploaded (committed (conn s)) p); [reflexivity|].
           destruct (decide (p ∈ l)) as [Hin|Hnin].
           ++ rewrite !bool_decide_true; auto. now right.
           ++ rewrite !bool_decide_false; auto.
              intros [->|?]%elem_of_cons; contradiction.
      * rewrite Hupl, Hcom, is_uploaded_upsert.
        destruct (decide (p = x)) as [->|Hne].
        -- rewrite bool_decide_true by reflexivity. simpl.
           rewrite bool_decide_true by left. now rewrite orb_true_r.
        -- rewrite bool_decide_false by assumption. simpl.
           f_equal. apply bool_decide_ext. rewrite elem_of_cons. tauto.
Qed.






(** The upload pass over an existing root is the loop over the candidates,
    wrapped in two log lines. *)
Lemma scan_and_upload_unfold w bucket stype sp dry_run s :
  path_exists w sp = true ->
  let s_in := (log (LogScanning stype sp) s).2 in
  let r := scan_loop w bucket stype (path_resolve w sp) dry_run
             (find_image_files w sp) (mkCounts 0 0 0) s_in in
  (scan_and_upload w bucket stype sp dry_run s).1 = Ok tt
  /\ conn (scan_and_upload w bucket stype sp dry_run s).2 = conn r.2
  /\ s3_calls (scan_and_upload w bucket stype sp dry_run s).2 = s3_calls r.2.
Proof.
  intros Hex. cbv zeta.
  destruct (scan_loop_total w bucket stype (path_resolve w sp) dry_run
              (find_image_files w sp) (mkCounts 0 0 0)
              (log (LogScanning stype sp) s).2) as [n' Hn'].
  unfold scan_and_upload. rewrite Hex. cbn [negb].
  unfold scan_loop in *. unfold bind, log in *. cbn [fst snd] in *.
  destruct (for_each _ _ _ _) as [r s1]. cbn [fst snd] in *. subst r.
  now cbn.
Qed.

(** The deletion pass over an existing root, once the listing query is
    accepted, is the loop over the listed rows. *)
Lemma sync_deletions_unfold w bucket stype sp dry_run s :
  path_exists w sp = true ->
  aborted (conn s) = false ->
  db_fails w (issued (conn s))
    (SelectUploadedLike stype (path_resolve w sp ++ "%")) = false ->
  let s_in :=
    mkState (mkConn (committed (conn s)) (current (conn s)) false
               (S (issued (conn s))))
      (s3_calls s) (logs s ++ [LogSyncing stype sp]) in
  let r := for_each (sync_body w bucket dry_run)
             (uploaded_like stype (path_resolve w sp ++ "%") (current (conn s)))
             (0, 0) s_in in
  (sync_deletions w bucket stype sp dry_run s).1 = Ok tt
  /\ conn (sync_deletions w bucket stype sp dry_run s).2 = conn r.2
  /\ s3_calls (sync_deletions w bucket stype sp dry_run s).2 = s3_calls r.2.
Proof.
  intros Hex Hab Hq. cbv zeta.
  match goal with |- context [for_each ?b ?l ?a ?st] =>
    assert (Htot : exists n', (for_each b l a st).1 = Ok n')
  end.
  { generalize (0, 0).
    generalize (uploaded_like stype (path_resolve w sp ++ "%") (current (conn s))).
    intros l. match goal with |- forall p, exists n', (for_each _ _ _ ?st).1 = _ =>
      generalize st end.
    induction l as [|x l IH]; intros st acc; cbn [for_each]; [eexists; reflexivity|].
    unfold bind. destruct (sync_body_total w bucket dry_run x acc st) as [n' Hn'].
    destruct (sync_body w bucket dry_run x acc st) as [r s']. cbn in Hn'. subst r.
    apply IH. }
  destruct Htot as [n' Hn'].
  unfold sync_deletions. rewrite Hex. cbn [negb].
  unfold bind, log, execute. cbn [fst snd conn set_conn].
  rewrite Hab, Hq. cbn [orb stmt_effect].
  destruct (for_each _ _ _ _) as [r s1]. cbn [fst snd] in *. subst r.
  now cbn.
Qed.

Lemma sync_deletions_dry_run_same_stores w bucket stype sp s :
  same_stores s (sync_deletions w bucket stype sp true s).2.
Proof.
  unfold sync_deletions. destruct (path_exists w sp); cbn [negb];
    [|apply log_same_stores].
  unfold bind at 1. cbn [log fst snd].
  set (s0 := mkState (conn s) (s3_calls s) (logs s ++ [LogSyncing stype sp])).
  assert (H0 : same_stores s s0) by (repeat split).
  eapply same_stores_trans; [exact H0|]. unfold bind at 1.
  pose proof (execute_query_same_stores w
    (SelectUploadedLike stype (path_resolve w sp ++ "%"))
    (uploaded_like stype (path_resolve w sp ++ "%")) s0 (fun _ _ => eq_refl)) as H1.
  destruct (execute w _ _ s0) as [[db_files|e] s1]; cbn [fst snd] in *;
    [|exact H1].
  eapply same_stores_trans; [exact H1|]. unfold bind.
  pose proof (for_each_preserves same_stores (sync_body w bucket true)
    same_stores_refl same_stores_trans
    (sync_body_dry_run_same_stores w bucket) db_files (0, 0) s1) as H2.
  destruct (for_each _ _ _ s1) as [[n|e] s2]; cbn [fst snd] in *; [|exact H2].
  eapply same_stores_trans; [exact H2 | apply log_same_stores].
Qed.

Lemma scan_and_upload_dry_run_same_stores w bucket stype sp s :
  same_stores s (scan_and_upload w bucket stype sp true s).2.
Proof.
  unfold scan_and_upload. destruct (path_exists w sp); cbn [negb];
    [|apply log_same_stores].
  unfold bind at 1. cbn [log fst snd].
  set (s0 := mkState (conn s) (s3_calls s) (logs s ++ [LogScanning stype sp])).
  assert (H0 : same_stores s s0) by (repeat split).
  eapply same_stores_trans; [exact H0|]. unfold bind.
  pose proof (for_each_preserves same_stores
    (scan_body w bucket stype (path_resolve w sp) true)
    same_stores_refl same_stores_trans
    (scan_body_dry_run_same_stores w bucket stype (path_resolve w sp))
    (find_image_files w sp) (mkCounts 0 0 0) s0) as H2.
  destruct (for_each _ _ _ s0) as [[n|e] s2]; cbn [fst snd] in *; [|exact H2].
  eapply same_stores_trans; [exact H2 | apply log_same_stores].
Qed.

(** The rows the deletion pass lists are the records of the source type
    with status uploaded whose path matches the pattern. *)
Lemma uploaded_like_spec stype pattern t p key :
  (p, key) ∈ uploaded_like stype pattern t
  <-> exists r, s3_backups t !! p = Some r /\ key = s3_key r
      /\ source_type r = stype /\ status r = "uploaded"
      /\ like_match pattern p = true.
Proof.
  unfold uploaded_like. rewrite list_elem_of_fmap. split.
  - intros ([p' r] & [= -> ->] & Hin). apply elem_of_map_to_list in Hin.
    apply map_lookup_filter_Some in Hin as [Hr (H1 & H2 & H3)].
    exists r. cbn in *. auto.
  - intros (r & Hr & -> & H1 & H2 & H3). exists (p, r). split; [reflexivity|].
    apply elem_of_map_to_list, map_lookup_filter_Some. cbn. auto.
Qed.

Lemma like_match_percent s : like_match "%" s = true.
Proof.
  cbn. induction s as [|c s IH]; [reflexivity|].
  destruct (String c s =? "")%string; [reflexivity | exact IH].
Qed.

(** For a root without special characters the pattern of the listing query
    is a plain string-prefix test. *)
Lemma like_match_prefix root p :
  like_literal root = true ->
  like_match (root ++ "%") p = String.prefix root p.
Proof.
  revert p. induction root as [|c root IH]; intros p Hlit.
  - rewrite like_match_percent. now destruct p.
  - cbn in Hlit. apply andb_prop in Hlit as [Hc Hlit].
    apply andb_prop in Hc as [Hc H3]. apply andb_prop in Hc as [H1 H2].
    apply negb_true_iff in H1, H2, H3.
    change (String c root ++ "%")%string with (String c (root ++ "%")%string).
    destruct p as [|d p]; simpl; rewrite H1, H2, H3; [reflexivity|].
    destruct (ascii_dec c d) as [->|Hne].
    + rewrite Ascii.eqb_refl. simpl. now apply IH.
    + apply Ascii.eqb_neq in Hne. now rewrite Hne.
Qed.

(** The upload succeeds and the server refuses the ledger upsert: the file
    is in the bucket and the ledger marks it as failed. *)
Lemma scan_body_upsert_refused w bucket stype spr fp size n s :
  clean (conn s) ->
  is_uploaded (committed (conn s)) fp = false ->
  getsize w fp = Some size ->
  upload_fails w fp (get_s3_key w fp stype spr) = None ->
  db_fails w (issued (conn s)) (SelectByPath fp) = false ->
  db_fails w (S (issued (conn s)))
    (Upsert fp (get_s3_key w fp stype spr) stype (Some size) (read_md5 w fp)
       "uploaded") = true ->
  db_fails w (S (S (issued (conn s))))
    (UpsertError fp (get_s3_key w fp stype spr) stype) = false ->
  db_fails w (S (S (S (issued (conn s))))) Commit = false ->
  let r := scan_body w bucket stype spr false fp n s in
  r.1 = Ok (mkCounts (uploaded_count n) (S (error_count n)) (skipped_count n))
  /\ committed (conn r.2)
     = stmt_effect (now w (S (S (issued (conn s)))))
         (UpsertError fp (get_s3_key w fp stype spr) stype) (committed (conn s))
  /\ s3_calls r.2
     = s3_calls s ++ [PutObject bucket (get_s3_key w fp stype spr) fp stype size].
Proof.
  intros [Hcur Hab] Hnu Hsz Hup H0 H1 H2 H3. cbv zeta.
  unfold_run. rewrite Hab. cbn. rewrite H0. cbn.
  rewrite db_record_uploaded, Hcur, Hnu, Hsz. cbn.
  destruct (read_md5 w fp) as [d|]; cbn; rewrite Hup; cbn; rewrite H1; cbn;
    rewrite H2; cbn; rewrite H3; cbn; auto.
Qed.

(** For a root without special characters, the listing query takes every
    uploaded record of the source type whose path starts with the root as a
    string. *)
Lemma uploaded_like_prefix stype root t p r :
  like_literal root = true ->
  s3_backups t !! p = Some r ->
  source_type r = stype ->
  status r = "uploaded" ->
  String.prefix root p = true ->
  (p, s3_key r) ∈ uploaded_like stype (root ++ "%") t.
Proof.
  intros Hlit Hr Hst Hup Hpre. apply uploaded_like_spec.
  exists r. rewrite like_match_prefix by assumption. auto.
Qed.




Lemma scan_body_effect w bucket stype spr fp n s :
  clean (conn s) ->
  scan_step_effect bucket stype (get_s3_key w fp stype spr) fp s
    (scan_body w bucket stype spr false fp n s).2.
Proof.
  intros [Hcur Hab]. unfold scan_step_effect. unfold_run.
  remember stmt_effect as EFF eqn:HEFF. revert HEFF. rewrite Hab, Hcur. simpl.
  repeat (break_match; simpl in *; try discriminate);
    repeat match goal with H : (_, _) = (_, _) |- _ => inversion H; subst; clear H end;
    simpl in *; rewrite ?Hcur; intros ->;
    (split; [first [left; reflexivity | right; eexists; reflexivity]
            | first [left; reflexivity
                    | right; left; do 3 eexists; reflexivity
                    | right; right; eexists; reflexivity]]).
Qed.

Lemma upload_pass_frame_same bucket stype l s s' :
  conn s' = conn s -> s3_calls s' = s3_calls s ->
  upload_pass_frame bucket stype l s s'.
Proof.
  intros Hconn Hcalls. unfold upload_pass_frame. rewrite Hconn, Hcalls.
  repeat split; auto. exists []. now rewrite app_nil_r.
Qed.

Lemma upload_pass_frame_refl bucket stype l s : upload_pass_frame bucket stype l s s.
Proof. now apply upload_pass_frame_same. Qed.

Lemma upload_pass_frame_step bucket stype key x l s s1 s2 :
  scan_step_effect bucket stype key x s s1 ->
  upload_pass_frame bucket stype l s1 s2 ->
  upload_pass_frame bucket stype (x :: l) s s2.
Proof.
  intros [Hcalls Hcom] (Ha & Ho & He & new & Hnew & Hall).
  assert (Hrows : s3_backups_deleted (committed (conn s1))
                  = s3_backups_deleted (committed (conn s))
                  /\ (forall p, p <> x ->
                        s3_backups (committed (conn s1)) !! p
                        = s3_backups (committed (conn s)) !! p)
                  /\ (forall p, is_Some (s3_backups (committed (conn s)) !! p) ->
                                is_Some (s3_backups (committed (conn s1)) !! p))).
  { destruct Hcom as [-> | [(t & sz & md & ->) | (t & ->)]]; [auto| |];
      (split; [reflexivity|]); split; cbn.
    - intros p Hp. now rewrite lookup_insert_ne by congruence.
    - intros p Hp. destruct (decide (p = x)) as [->|Hne];
        [rewrite lookup_insert_eq; eauto | now rewrite lookup_insert_ne by congruence].
    - intros p Hp. now rewrite lookup_insert_ne by congruence.
    - intros p Hp. destruct (decide (p = x)) as [->|Hne];
        [rewrite lookup_insert_eq; eauto | now rewrite lookup_insert_ne by congruence]. }
  destruct Hrows as (Ha1 & Ho1 & He1).
  split; [congruence|]. split; [|split].
  - intros p Hp. rewrite Ho, Ho1; auto.
    + intros ->. apply Hp. left.
    + intros Hin. apply Hp. now right.
  - auto.
  - assert (Hall' : Forall (fun c => exists key fp size,
                      c = PutObject bucket key fp stype size /\ fp ∈ x :: l) new).
    { eapply Forall_impl; [exact Hall|]. intros c (k & fp & sz & -> & Hin).
      exists k, fp, sz. split; [reflexivity | now right]. }
    destruct Hcalls as [Hc | [sz Hc]]; rewrite Hnew, Hc.
    + exists new. auto.
    + exists (PutObject bucket key x stype sz :: new).
      rewrite <- app_assoc. split; [reflexivity|].
      constructor; [|exact Hall']. exists key, x, sz. split; [reflexivity | left].
Qed.

Lemma scan_loop_frame w bucket stype spr l n s :
  clean (conn s) ->
  upload_pass_frame bucket stype l s (scan_loop w bucket stype spr false l n s).2.
Proof.
  unfold scan_loop. revert n s. induction l as [|x l IH]; intros n s Hc; cbn [for_each].
  - apply upload_pass_frame_refl.
  - unfold bind.
    pose proof (scan_body_effect w bucket stype spr x n s Hc) as Heff.
    pose proof (scan_body_keeps_clean w bucket stype spr x n s Hc) as Hc'.
    destruct (scan_body_total w bucket stype spr false x n s) as [n' Hn'].
    destruct (scan_body w bucket stype spr false x n s) as [r s1].
    cbn [fst snd] in *. subst r.
    eapply upload_pass_frame_step; [exact Heff | now apply IH].
Qed.

Lemma sync_body_effect w bucket dry_run p key n s :
  clean (conn s) ->
  sync_step_effect w bucket p key s (sync_body w bucket dry_run (p, key) n s).2.
Proof.
  intros [Hcur Hab]. unfold sync_step_effect, moved, audit_row. unfold_run.
  cbn [fst snd].
  destruct (path_exists w p) eqn:Hex; simpl; [auto|].
  destruct dry_run; simpl; [auto|].
  rewrite Hab, Hcur. simpl.
  destruct (db_fails w (issued (conn s)) (SelectRecord p)); simpl; [auto|].
  destruct (s3_backups (committed (conn s)) !! p) as [rec|] eqn:Hrec; simpl; [|auto].
  destruct (db_fails w (S (issued (conn s))) _); simpl; [auto|].
  destruct (delete_fails w key) as [e|]; simpl; [destruct e; simpl; auto|].
  destruct (db_fails w (S (S (issued (conn s)))) _); simpl; [auto|].
  destruct (db_fails w (S (S (S (issued (conn s))))) Commit); simpl; [auto|].
  split; [right | auto]. exists rec, (now w (S (issued (conn s)))). auto.
Qed.

Lemma deletion_pass_frame_same w bucket l s s' :
  committed (conn s') = committed (conn s) -> s3_calls s' = s3_calls s ->
  deletion_pass_frame w bucket l s s'.
Proof.
  intros Hconn Hcalls. unfold deletion_pass_frame. rewrite Hconn, Hcalls.
  repeat split; auto. exists []. now rewrite app_nil_r.
Qed.

Lemma deletion_pass_frame_refl w bucket l s : deletion_pass_frame w bucket l s s.
Proof. now apply deletion_pass_frame_same. Qed.

Lemma deletion_pass_frame_step w bucket p key l s s1 s2 :
  sync_step_effect w bucket p key s s1 ->
  deletion_pass_frame w bucket l s1 s2 ->
  deletion_pass_frame w bucket ((p, key) :: l) s s2.
Proof.
  intros [Hcom Hcalls] (Hsub & Hpre & Hsame & new & Hnew & Hall).
  assert (Hrows : s3_backups (committed (conn s1)) ⊆ s3_backups (committed (conn s))
                  /\ s3_backups_deleted (committed (conn s))
                       `prefix_of` s3_backups_deleted (committed (conn s1))
                  /\ (forall q, path_exists w q = true \/ q <> p ->
                        s3_backups (committed (conn s1)) !! q
                        = s3_backups (committed (conn s)) !! q)).
  { destruct Hcom as [-> | (rec & t & Hrec & Hex & ->)]; [auto|]. cbn.
    split; [apply delete_subseteq|]. split; [now apply prefix_app_r|].
    intros q [Hq | Hq]; [|now rewrite lookup_delete_ne by congruence].
    rewrite lookup_delete_ne; [reflexivity|]. intros ->. congruence. }
  destruct Hrows as (Hsub1 & Hpre1 & Hsame1).
  split; [now transitivity (s3_backups (committed (conn s1)))|].
  split; [now transitivity (s3_backups_deleted (committed (conn s1)))|].
  split.
  - intros q Hq. rewrite Hsame, Hsame1; auto.
    + destruct Hq as [Hq | Hq]; [now left | right].
      intros ->. apply (Hq key). left.
    + destruct Hq as [Hq | Hq]; [now left | right].
      intros k Hk. apply (Hq k). now right.
  - assert (Hall' : Forall (fun c => exists q k,
                      c = DeleteObject bucket k /\ (q, k) ∈ (p, key) :: l
                      /\ path_exists w q = false) new).
    { eapply Forall_impl; [exact Hall|]. intros c (q & k & -> & Hin & Hq).
      exists q, k. split; [reflexivity|]. split; [now right | exact Hq]. }
    destruct Hcalls as [Hc | [Hex Hc]]; rewrite Hnew, Hc.
    + exists new. auto.
    + exists (DeleteObject bucket key :: new).
      rewrite <- app_assoc. split; [reflexivity|].
      constructor; [|exact Hall']. exists p, key. split; [reflexivity|].
      split; [left | exact Hex].
Qed.

Lemma sync_loop_frame w bucket dry_run l n s :
  clean (conn s) ->
  deletion_pass_frame w bucket l s
    (for_each (sync_body w bucket dry_run) l n s).2.
Proof.
  revert n s. induction l as [|[p key] l IH]; intros n s Hc; cbn [for_each].
  - apply deletion_pass_frame_refl.
  - unfold bind.
    pose proof (sync_body_effect w bucket dry_run p key n s Hc) as Heff.
    pose proof (sync_body_keeps_clean w bucket dry_run (p, key) n s Hc) as Hc'.
    destruct (sync_body_total w bucket dry_run (p, key) n s) as [n' Hn'].
    destruct (sync_body w bucket dry_run (p, key) n s) as [r s1].
    cbn [fst snd] in *. subst r.
    eapply deletion_pass_frame_step; [exact Heff | now apply IH].
Qed.

Lemma sync_loop_keeps_clean w bucket dry_run l n s :
  clean (conn s) ->
  clean (conn (for_each (sync_body w bucket dry_run) l n s).2).
Proof.
  revert n s. induction l as [|x l IH]; intros n s Hc; cbn [for_each]; [exact Hc|].
  unfold bind.
  pose proof (sync_body_keeps_clean w bucket dry_run x n s Hc) as Hc'.
  destruct (sync_body w bucket dry_run x n s) as [[n'|e] s1]; cbn [fst snd] in *;
    [now apply IH | exact Hc'].
Qed.

(** On a reliable server and store, the loop over distinct listed rows that
    all have a record removes exactly the records whose file is gone, writes
    one audit row for each, in the order of the listing, and deletes their
    remote objects. *)
Lemma sync_loop_reliable w bucket l n s :
  db_reliable w ->
  (forall k, delete_fails w k = None) ->
  clean (conn s) ->
  NoDup l.*1 ->
  (forall p k, (p, k) ∈ l -> is_Some (s3_backups (committed (conn s)) !! p)) ->
  let r := for_each (sync_body w bucket false) l n s in
  let gone := filter (fun pk => path_exists w pk.1 = false) l in
  r.1 = Ok (n.1 + length gone, n.2)
  /\ clean (conn r.2)
  /\ (forall p, s3_backups (committed (conn r.2)) !! p
                = if bool_decide (p ∈ gone.*1) then None
                  else s3_backups (committed (conn s)) !! p)
  /\ (exists rows,
        s3_backups_deleted (committed (conn r.2))
        = s3_backups_deleted (committed (conn s)) ++ rows
        /\ Forall2 (fun pk row =>
                      exists rec t_del,
                        s3_backups (committed (conn s)) !! pk.1 = Some rec
                        /\ row = audit_row bucket pk.1 rec t_del) gone rows)
  /\ s3_calls r.2 = s3_calls s ++ map (fun pk => DeleteObject bucket pk.2) gone.
Proof.
  intros Hrel Hdel. revert n s.
  induction l as [|[p key] l IH]; intros n s Hc Hnd Hrec; cbv zeta; cbn [for_each].
  - cbn. rewrite Nat.add_0_r, app_nil_r. split; [now destruct n|].
    split; [exact Hc|]. split; [intros p; reflexivity|]. split; [|reflexivity].
    exists []. rewrite app_nil_r. split; [reflexivity | constructor].
  - unfold bind. cbn [fmap list_fmap fst] in Hnd. apply NoDup_cons in Hnd as [Hp Hnd].
    destruct (path_exists w p) eqn:Hex.
    + (* the file is there: the row is passed over *)
      assert (Hstep : sync_body w bucket false (p, key) n s = (Ok n, s)).
      { unfold sync_body. cbn [fst snd]. now rewrite Hex. }
      rewrite Hstep.
      rewrite filter_cons_False by (cbn; congruence).
      apply IH; auto. intros q k Hq. apply (Hrec q k). now right.
    + rewrite filter_cons_True by (cbn; congruence).
      pose proof (sync_body_outcome w bucket p key n s Hc Hex) as Hout.
      pose proof (sync_body_keeps_clean w bucket false (p, key) n s Hc) as Hc'.
      cbv zeta in Hout.
      destruct (Hrec p key) as [rec Hr]; [left|]. rewrite Hr in Hout.
      assert (Hnf : deletion_step_fails w (issued (conn s)) bucket p key rec = false).
      { unfold deletion_step_fails. rewrite !Hrel, Hdel. reflexivity. }
      rewrite Hnf in Hout. destruct Hout as (Hres & Hcom & Hcalls).
      destruct (sync_body w bucket false (p, key) n s) as [r1 s1].
      cbn [fst snd] in *. subst r1.
      assert (Hlook : forall q, q <> p ->
                s3_backups (committed (conn s1)) !! q
                = s3_backups (committed (conn s)) !! q).
      { intros q Hq. rewrite Hcom. cbn. now rewrite lookup_delete_ne by congruence. }
      assert (Hin_ne : forall q k, (q, k) ∈ l -> q <> p).
      { intros q k Hq ->. apply Hp. apply list_elem_of_fmap. now exists (p, k). }
      destruct (IH (S n.1, n.2) s1 Hc' Hnd) as (Hr' & Hcl & Hlive & (rows & Haud & Hrows) & Hs3).
      { intros q k Hq. rewrite Hlook by eauto. apply (Hrec q k). now right. }
      cbn [fst snd] in *.
      split; [rewrite Hr'; f_equal; f_equal; cbn; lia|].
      split; [exact Hcl|]. split; [|split].
      * intros q. rewrite Hlive. cbn [fmap list_fmap fst].
        destruct (decide (q = p)) as [->|Hne].
        -- rewrite (bool_decide_true (p ∈ p :: _)) by left.
           rewrite Hcom. cbn. rewrite lookup_delete_eq.
           now destruct (bool_decide _).
        -- rewrite Hlook by assumption.
           destruct (decide (q ∈ (filter (fun pk => path_exists w pk.1 = false) l).*1))
             as [Hin|Hnin].
           ++ rewrite !bool_decide_true; auto. now right.
           ++ rewrite !bool_decide_false; auto.
              intros [->|?]%elem_of_cons; contradiction.
      * exists (audit_row bucket p rec (now w (S (issued (conn s)))) :: rows).
        rewrite Haud, Hcom. cbn. rewrite <- app_assoc. split; [reflexivity|].
        constructor.
        -- exists rec, (now w (S (issued (conn s)))). auto.
        -- eapply Forall2_impl; [exact Hrows|].
           intros [q k] row (rec' & t & Hq & ->). cbn in *.
           exists rec', t. split; [|reflexivity].
           rewrite Hcom in Hq. cbn in Hq.
           now apply lookup_delete_Some in Hq as [_ Hq].
      * rewrite Hs3, Hcalls. cbn. now rewrite <- app_assoc.
Qed.

Lemma scan_and_upload_keeps_clean w bucket stype sp s :
  clean (conn s) ->
  clean (conn (scan_and_upload w bucket stype sp false s).2).
Proof.
  intros Hc. destruct (path_exists w sp) eqn:Hex.
  - destruct (scan_and_upload_unfold w bucket stype sp false s Hex) as (_ & -> & _).
    now apply scan_loop_keeps_clean.
  - unfold scan_and_upload. rewrite Hex. exact Hc.
Qed.

Lemma scan_and_upload_frame w bucket stype sp s :
  clean (conn s) ->
  upload_pass_frame bucket stype (find_image_files w sp) s
    (scan_and_upload w bucket stype sp false s).2.
Proof.
  intros Hc. destruct (path_exists w sp) eqn:Hex.
  - destruct (scan_and_upload_unfold w bucket stype sp false s Hex)
      as (_ & Hconn & Hcalls).
    pose proof (scan_loop_frame w bucket stype (path_resolve w sp)
                  (find_image_files w sp) (mkCounts 0 0 0)
                  (log (LogScanning stype sp) s).2 Hc) as Hf.
    unfold upload_pass_frame in *. rewrite Hconn, Hcalls. exact Hf.
  - unfold scan_and_upload. rewrite Hex. now apply upload_pass_frame_same.
Qed.

Lemma sync_deletions_frame w bucket stype sp dry_run s :
  clean (conn s) ->
  deletion_pass_frame w bucket
    (uploaded_like stype (path_resolve w sp ++ "%") (committed (conn s))) s
    (sync_deletions w bucket stype sp dry_run s).2.
Proof.
  intros Hc. destruct (path_exists w sp) eqn:Hex.
  - destruct Hc as [Hcur Hab].
    destruct (db_fails w (issued (conn s))
                (SelectUploadedLike stype (path_resolve w sp ++ "%"))) eqn:Hq.
    + unfold sync_deletions. rewrite Hex. cbn [negb].
      unfold bind, log, execute. cbn [fst snd conn set_conn].
      rewrite Hab, Hq. cbn. now apply deletion_pass_frame_same.
    + destruct (sync_deletions_unfold w bucket stype sp dry_run s Hex Hab Hq)
        as (_ & Hconn & Hcalls).
      cbv zeta in Hconn, Hcalls. rewrite Hcur in Hconn, Hcalls.
      match type of Hconn with _ = conn (for_each _ ?l ?a ?st).2 =>
        pose proof (sync_loop_frame w bucket dry_run l a st) as Hf end.
      unfold deletion_pass_frame in *. rewrite Hconn, Hcalls.
      apply Hf. split; [reflexivity | reflexivity].
  - unfold sync_deletions. rewrite Hex. now apply deletion_pass_frame_same.
Qed.

Lemma sync_deletions_keeps_clean w bucket stype sp dry_run s :
  clean (conn s) ->
  (sync_deletions w bucket stype sp dry_run s).1 = Ok tt ->
  clean (conn (sync_deletions w bucket stype sp dry_run s).2).
Proof.
  intros Hc Hok. destruct (path_exists w sp) eqn:Hex.
  - destruct Hc as [Hcur Hab].
    destruct (db_fails w (issued (conn s))
                (SelectUploadedLike stype (path_resolve w sp ++ "%"))) eqn:Hq.
    + exfalso. revert Hok. unfold sync_deletions. rewrite Hex. cbn [negb].
      unfold bind, log, execute. cbn [fst snd conn set_conn].
      rewrite Hab, Hq. cbn. discriminate.
    + destruct (sync_deletions_unfold w bucket stype sp dry_run s Hex Hab Hq)
        as (_ & Hconn & _).
      rewrite Hconn. apply sync_loop_keeps_clean. split; [exact Hcur | reflexivity].
  - unfold sync_deletions. rewrite Hex. exact Hc.
Qed.

Lemma uploaded_like_NoDup stype pattern t :
  NoDup (uploaded_like stype pattern t).*1.
Proof.
  unfold uploaded_like. rewrite <- list_fmap_compose.
  apply NoDup_fst_map_to_list.
Qed.

Lemma stale_listed w stype root t p :
  like_literal root = true ->
  stale w stype root t p = true
  <-> p ∈ (filter (fun pk => path_exists w pk.1 = false)
             (uploaded_like stype (root ++ "%") t)).*1.
Proof.
  intros Hlit. unfold stale. rewrite <- (like_match_prefix root p Hlit).
  rewrite list_elem_of_fmap. split.
  - destruct (s3_backups t !! p) as [rec|] eqn:Hrec; [|discriminate].
    rewrite !andb_true_iff, bool_decide_eq_true, String.eqb_eq, negb_true_iff.
    intros [[[H1 H2] H3] H4]. exists (p, s3_key rec). split; [reflexivity|].
    apply list_elem_of_filter. split; [exact H4|].
    apply uploaded_like_spec. exists rec. auto.
  - intros ([q k] & -> & Hin). apply list_elem_of_filter in Hin as [Hex Hin].
    apply uploaded_like_spec in Hin as (rec & Hrec & _ & H1 & H2 & H3).
    cbn in *. rewrite Hrec, H3, Hex.
    rewrite bool_decide_true by assumption.
    apply String.eqb_eq in H2. now rewrite H2.
Qed.

Lemma lower_ascii_idem c : lower_ascii (lower_ascii c) = lower_ascii c.
Proof. destruct c as [[] [] [] [] [] [] [] []]; reflexivity. Qed.

Lemma lower_idem s : lower (lower s) = lower s.
Proof. induction s as [|c s IH]; cbn; [reflexivity|]. now rewrite lower_ascii_idem, IH. Qed.

Lemma lowered_extension s :
  lower s ∈ IMAGE_EXTENSIONS <-> lower s ∈ lower_extensions.
Proof.
  split.
  - intros Hin. rewrite <- lower_idem.
    assert (Hall : Forall (fun x => lower x ∈ lower_extensions) IMAGE_EXTENSIONS).
    { repeat constructor; apply bool_decide_unpack; vm_compute; exact I. }
    rewrite Forall_forall in Hall. now apply Hall.
  - intros Hin. unfold IMAGE_EXTENSIONS. apply elem_of_app. now left.
Qed.

Lemma from_last_dot_suffix s t :
  PosixPath.from_last_dot s = Some t -> exists pre, s = (pre ++ t)%string.
Proof.
  revert t. induction s as [|c s IH]; intros t; cbn; [discriminate|].
  destruct (PosixPath.from_last_dot s) as [u|] eqn:Hu.
  - intros [= <-]. destruct (IH u eq_refl) as [pre ->]. now exists (String c pre).
  - destruct (Ascii.eqb c "."); [|discriminate]. intros [= <-]. now exists "".
Qed.

Lemma suffix_of_name p :
  PosixPath.suffix p <> "" ->
  exists c stem, PosixPath.name p = String c (stem ++ PosixPath.suffix p).
Proof.
  unfold PosixPath.suffix. destruct (PosixPath.name p) as [|c rest]; [congruence|].
  destruct (PosixPath.from_last_dot rest) as [t|] eqn:Ht; [|congruence].
  destruct (Nat.eqb (String.length t) 1); [congruence|]. intros _.
  apply from_last_dot_suffix in Ht as [pre ->]. now exists c, pre.
Qed.

Lemma split_on_nonempty sep s : PosixPath.split_on sep s <> [].
Proof.
  destruct s as [|c s]; cbn; [discriminate|].
  destruct (Ascii.eqb c sep); [discriminate|].
  now destruct (PosixPath.split_on sep s).
Qed.

Lemma split_on_app sep a b :
  PosixPath.split_on sep (a ++ String sep b)
  = PosixPath.split_on sep a ++ PosixPath.split_on sep b.
Proof.
  induction a as [|c a IH]; simpl.
  - now rewrite Ascii.eqb_refl.
  - destruct (Ascii.eqb c sep); [now rewrite IH|].
    rewrite IH. pose proof (split_on_nonempty sep a) as Hne.
    now destruct (PosixPath.split_on sep a).
Qed.

Lemma tail_parts_app a b :
  PosixPath.tail_parts (a ++ "/" ++ b)
  = PosixPath.tail_parts a ++ PosixPath.tail_parts b.
Proof.
  unfold PosixPath.tail_parts.
  change ("/" ++ b)%string with (String "/" b).
  now rewrite split_on_app, filter_app.
Qed.

Lemma find_image_files_spec w base fp :
  fp ∈ find_image_files w base
  <-> path_exists w base = true /\ fp ∈ rglob w base /\ is_file w fp = true
      /\ lower (PosixPath.suffix fp) ∈ lower_extensions
      /\ forall d, d ∈ EXCLUDE_DIRS -> d ∉ PosixPath.parts fp.
Proof.
  unfold find_image_files, is_image_file.
  destruct (path_exists w base); cbn [negb].
  - rewrite list_elem_of_filter, !andb_true_iff, bool_decide_eq_true, negb_true_iff.
    rewrite lowered_extension.
    assert (Hex : existsb (fun excluded => bool_decide (excluded ∈ PosixPath.parts fp))
                    EXCLUDE_DIRS = false
                  <-> forall d, d ∈ EXCLUDE_DIRS -> d ∉ PosixPath.parts fp).
    { rewrite <- not_true_iff_false, existsb_exists. split.
      - intros Hno d Hd Hin. apply Hno. exists d. split.
        + now apply list_elem_of_In.
        + now apply bool_decide_eq_true.
      - intros Hall (d & Hd & Hin). apply bool_decide_eq_true in Hin.
        apply (Hall d); [now apply list_elem_of_In | exact Hin]. }
    rewrite Hex. tauto.
  - split; [intros H; now apply elem_of_nil in H | intros [? _]; discriminate].
Qed.

Lemma excluded_part_of_root w base d fp rel :
  d ∈ EXCLUDE_DIRS -> d ∈ PosixPath.parts base ->
  fp = (base ++ "/" ++ rel)%string ->
  is_image_file w fp = false.
Proof.
  intros Hd Hin ->. unfold is_image_file.
  apply andb_false_iff. right. apply negb_false_iff, existsb_exists.
  exists d. split; [now apply list_elem_of_In|]. apply bool_decide_eq_true.
  unfold PosixPath.parts in *. apply elem_of_app in Hin as [Hin | Hin].
  - exfalso. destruct (String.prefix "/" base); [|now apply elem_of_nil in Hin].
    apply list_elem_of_singleton in Hin. subst d.
    revert Hd. unfold EXCLUDE_DIRS. intros Hd.
    repeat (apply elem_of_cons in Hd as [Hd|Hd]; [discriminate|]).
    now apply elem_of_nil in Hd.
  - apply elem_of_app. right. rewrite tail_parts_app. apply elem_of_app. now left.
Qed.

Lemma slash_terminated_inj a b x y :
  no_slash a = true -> no_slash b = true ->
  (a ++ "/" ++ x)%string = (b ++ "/" ++ y)%string -> a = b.
Proof.
  revert b. induction a as [|c a IH]; intros [|d b] Ha Hb H; simpl in *.
  - reflexivity.
  - injection H as <- _. discriminate.
  - injection H as -> _. discriminate.
  - injection H as -> H.
    apply andb_prop in Ha as [_ Ha]. apply andb_prop in Hb as [_ Hb].
    f_equal. now apply IH.
Qed.

Lemma replace_backslash_no_backslash s :
  replace_backslash (replace_backslash s) = replace_backslash s.
Proof.
  induction s as [|c s IH]; simpl; [reflexivity|]. rewrite IH. f_equal.
  destruct (Ascii.eqb c "\") eqn:Hc; [reflexivity | now rewrite Hc].
Qed.

Lemma get_s3_key_shape w fp stype sp :
  exists rest,
    get_s3_key w fp stype sp = (stype ++ "/" ++ rest)%string
    /\ replace_backslash rest = rest.
Proof.
  unfold get_s3_key. eexists. split; [reflexivity|].
  apply replace_backslash_no_backslash.
Qed.

Lemma get_s3_key_outside w fp stype sp :
  ~ inside_root w fp sp ->
  get_s3_key w fp stype sp
  = (stype ++ "/" ++ replace_backslash (PosixPath.name fp))%string.
Proof.
  intros Hout. apply KeyDerivation.get_s3_key_fallback.
  destruct (relative w fp sp) as [r|] eqn:Hr; [right | now left].
  exists r. split; [reflexivity|].
  eapply KeyDerivation.relative_outside; eauto.
Qed.

Lemma like_match_literal_app a pat s :
  like_literal a = true ->
  like_match (a ++ pat) (a ++ s) = like_match pat s.
Proof.
  induction a as [|c a IH]; intros Hlit; [reflexivity|].
  cbn in Hlit. apply andb_prop in Hlit as [Hc Hlit].
  apply andb_prop in Hc as [Hc H3]. apply andb_prop in Hc as [H1 H2].
  apply negb_true_iff in H1, H2, H3.
  change (String c a ++ pat)%string with (String c (a ++ pat)%string).
  change (String c a ++ s)%string with (String c (a ++ s)%string).
  simpl. rewrite H1, H2, H3, Ascii.eqb_refl. simpl. now apply IH.
Qed.

Lemma like_match_underscore a b c rest :
  like_literal a = true -> like_literal b = true ->
  like_match ((a ++ "_" ++ b) ++ "%") (a ++ String c (b ++ rest)) = true.
Proof.
  intros Ha Hb.
  replace ((a ++ "_" ++ b) ++ "%")%string with (a ++ String "_" (b ++ "%"))%string.
  2:{ clear. induction a as [|d a IH]; [reflexivity|].
      change (String d (a ++ String "_" (b ++ "%"))
              = String d ((a ++ "_" ++ b) ++ "%"))%string.
      now rewrite IH. }
  rewrite like_match_literal_app by assumption.
  change (like_match (String "_" (b ++ "%")) (String c (b ++ rest)))
    with (like_match (b ++ "%") (b ++ rest)).
  rewrite like_match_literal_app by assumption. apply like_match_percent.
Qed.

Lemma bind_same_stores {A B} (m : M A) (k : A -> M B) s :
  same_stores s (m s).2 ->
  (forall a s', same_stores s' (k a s').2) ->
  same_stores s (bind m k s).2.
Proof.
  intros Hm Hk. unfold bind. destruct (m s) as [[a|e] s1]; cbn [snd] in *.
  - eapply same_stores_trans; [exact Hm | apply Hk].
  - exact Hm.
Qed.

Lemma split_once_app sep a b :
  (forall pre post, a <> (pre ++ String sep post)%string) ->
  split_once sep (a ++ String sep b) = Some (a, b).
Proof.
  induction a as [|c a IH]; intros Hno.
  - simpl. now rewrite Ascii.eqb_refl.
  - change (String c a ++ String sep b)%string
      with (String c (a ++ String sep b)%string).
    cbn [split_once]. destruct (Ascii.eqb_spec c sep) as [->|Hne].
    + exfalso. now apply (Hno "" a).
    + rewrite IH; [reflexivity|]. intros pre post ->.
      now apply (Hno (String c pre) post).
Qed.

Lemma no_equals_split key value :
  no_equals key = true ->
  split_once "=" (key ++ "=" ++ value) = Some (key, value).
Proof.
  intros Hk. change ("=" ++ value)%string with (String "=" value).
  apply split_once_app. intros pre post ->.
  revert Hk. clear. induction pre as [|c pre IH]; cbn.
  - discriminate.
  - intros H. apply andb_prop in H as [_ H]. now apply IH.
Qed.

Lemma scan_body_dry_run_refused w bucket stype spr fp n s :
  aborted (conn s) = true
  \/ db_fails w (issued (conn s)) (SelectByPath fp) = true ->
  let r := scan_body w bucket stype spr true fp n s in
  r.1 = Ok (mkCounts (uploaded_count n) (S (error_count n)) (skipped_count n))
  /\ aborted (conn r.2) = true.
Proof.
  intros H. cbv zeta. unfold_run.
  assert (Hor : aborted (conn s) || db_fails w (issued (conn s)) (SelectByPath fp)
                = true).
  { destruct H as [-> | ->]; [reflexivity | apply orb_true_r]. }
  rewrite Hor. cbn. split; reflexivity.
Qed.

Lemma scan_loop_dry_run_aborted w bucket stype spr l n s :
  aborted (conn s) = true ->
  let r := scan_loop w bucket stype spr true l n s in
  r.1 = Ok (mkCounts (uploaded_count n) (error_count n + length l) (skipped_count n))
  /\ aborted (conn r.2) = true.
Proof.
  unfold scan_loop. revert n s. induction l as [|x l IH]; intros n s Hab; cbv zeta;
    cbn [for_each].
  - cbn. rewrite Nat.add_0_r. split; [now destruct n | exact Hab].
  - unfold bind.
    destruct (scan_body_dry_run_refused w bucket stype spr x n s (or_introl Hab))
      as [Hres Hab'].
    destruct (scan_body w bucket stype spr true x n s) as [r1 s1].
    cbn [fst snd] in *. subst r1.
    destruct (IH (mkCounts (uploaded_count n) (S (error_count n)) (skipped_count n))
                s1 Hab') as [Hres' Hab'']. split; [|exact Hab''].
    rewrite Hres'. cbn. f_equal. f_equal. lia.
Qed.

Lemma sync_deletions_aborted w bucket stype sp dry_run s :
  path_exists w sp = true ->
  aborted (conn s) = true ->
  (sync_deletions w bucket stype sp dry_run s).1 = Raise DatabaseError
  /\ same_stores s (sync_deletions w bucket stype sp dry_run s).2.
Proof.
  intros Hex Hab. unfold sync_deletions. rewrite Hex. cbn [negb].
  unfold bind, log, execute. cbn [fst snd conn set_conn]. rewrite Hab. cbn.
  repeat split; reflexivity.
Qed.














Lemma sync_deletions_ignores_reads w sizes digests bucket stype sp dry_run s :
  sync_deletions (with_reads w sizes digests) bucket stype sp dry_run s
  = sync_deletions w bucket stype sp dry_run s.
Proof. reflexivity. Qed.

Lemma rstrip_app_spaces (a ws : Text) :
  rstrip ws = [] -> rstrip (a ++ ws) = rstrip a.
Proof.
  intros Hws. induction a as [|c a IH]; [exact Hws|].
  cbn [app rstrip]. now rewrite IH.
Qed.

Lemma lstrip_length (t : Text) : length (lstrip t) <= length t.
Proof.
  induction t as [|c t IH]; cbn; [lia|]. destruct (is_space c); cbn; lia.
Qed.

Lemma lstrip_app (a ws : Text) :
  a <> [] -> lstrip a = a -> lstrip (a ++ ws) = a ++ ws.
Proof.
  destruct a as [|c a]; [congruence|]. intros _. cbn [app lstrip].
  destruct (is_space c) eqn:Hc; [|reflexivity].
  intros H. exfalso. pose proof (lstrip_length a) as Hlen.
  rewrite H in Hlen. cbn in Hlen. lia.
Qed.

Lemma lstrip_app_spaces (ws x : Text) :
  lstrip ws = [] -> lstrip (ws ++ x) = lstrip x.
Proof.
  induction ws as [|c ws IH]; [reflexivity|]. cbn [app lstrip].
  destruct (is_space c); [exact IH | discriminate].
Qed.

Lemma rstrip_nil_lstrip (t : Text) : rstrip t = [] -> lstrip t = [].
Proof.
  induction t as [|c t IH]; cbn; [reflexivity|].
  destruct (rstrip t); [|discriminate].
  destruct (is_space c); [intros _; now apply IH | discriminate].
Qed.

Lemma strip_app_spaces (pw ws : Text) :
  lstrip pw = pw -> rstrip pw = pw -> rstrip ws = [] ->
  strip (pw ++ ws) = pw.
Proof.
  intros Hl Hr Hws. unfold strip. destruct pw as [|c pw].
  - cbn [app]. now rewrite (rstrip_nil_lstrip ws Hws).
  - rewrite lstrip_app by (assumption || discriminate).
    now rewrite rstrip_app_spaces.
Qed.

Lemma starts_with_app_inv (p t : Text) :
  starts_with p t = true -> exists r, t = p ++ r.
Proof.
  revert t. induction p as [|a p IH]; intros t H.
  - now exists t.
  - destruct t as [|b t]; cbn in H; [discriminate|].
    apply andb_prop in H as [Hab H]. apply N.eqb_eq in Hab as ->.
    destruct (IH t H) as [r ->]. now exists r.
Qed.

Lemma credentials_line_after (rest : Text) :
  after_first 58 (text "image_server:" ++ rest) = Some rest.
Proof. reflexivity. Qed.

Lemma credentials_line_starts (rest : Text) :
  starts_with (text "image_server:") (text "image_server:" ++ rest) = true.
Proof. reflexivity. Qed.

(* ===================================================================== *)
(** ** The claims *)
(* ===================================================================== *)

(** C3. Deletion safety for inaccessible roots: when the root of a source
    does not exist on the host, the deletion pass returns at once; it sends
    no statement to the ledger (the connection, with both views of the
    tables, is untouched) and makes no call to the object store. *)
Theorem sync_deletions_skips_unmounted w bucket stype source_path dry_run s :
  path_exists w source_path = false ->
  (sync_deletions w bucket stype source_path dry_run s).1 = Ok tt
  /\ conn (sync_deletions w bucket stype source_path dry_run s).2 = conn s
  /\ s3_calls (sync_deletions w bucket stype source_path dry_run s).2 = s3_calls s.
Proof.
  intros Hex. unfold sync_deletions. rewrite Hex. cbn. auto.
Qed.

(** An archived file of an unmounted external disk stays in the ledger and
    in the bucket. *)
Lemma sync_deletions_skips_unmounted_witness :
  let w := Example.host [] [] [] in
  let s := Example.at_rest
             {["/mnt/external-storage/images/x.jpg"
               := Example.archived "external/x.jpg" "external"]} in
  path_exists w "/mnt/external-storage/images" = false
  /\ (sync_deletions w "bk" "external" "/mnt/external-storage/images" false s).1
     = Ok tt
  /\ conn (sync_deletions w "bk" "external" "/mnt/external-storage/images" false s).2
     = conn s
  /\ s3_calls
       (sync_deletions w "bk" "external" "/mnt/external-storage/images" false s).2
     = s3_calls s.
Proof.
  cbv zeta. split; [reflexivity|].
  apply (sync_deletions_skips_unmounted (Example.host [] [] [])). reflexivity.
Defined.

(** C6. Remote-key stability: the key is a function of the file path, the
    source type and the source root, and of how the file system resolves the
    two paths (and the working directory, should a resolved path be
    relative); nothing else of the host, and nothing of the ledger, the
    bucket or the clock, enters it. *)
Theorem get_s3_key_stable w1 w2 filepath stype source_path :
  cwd w1 = cwd w2 ->
  path_resolve w1 filepath = path_resolve w2 filepath ->
  path_resolve w1 source_path = path_resolve w2 source_path ->
  get_s3_key w1 filepath stype source_path
  = get_s3_key w2 filepath stype source_path.
Proof.
  intros Hcwd Hf Hs. unfold get_s3_key. now rewrite Hcwd, Hf, Hs.
Qed.

(** The same key on two hosts that differ in which files exist, can be read
    and can be sent. *)
Lemma get_s3_key_stable_witness :
  get_s3_key (Example.host Example.images [] []) "/data/images/2024/a.jpg"
    "internal" "/data/images"
  = get_s3_key (Example.host [] ["/data/images/2024/a.jpg"]
                  ["/data/images/2024/a.jpg"])
      "/data/images/2024/a.jpg" "internal" "/data/images".
Proof.
  apply (get_s3_key_stable (Example.host Example.images [] [])); reflexivity.
Defined.

(** C5, at the input where the program departs from its own comment.  The
    file [/data/images/..x/a\b.jpg] lies inside the root [/data/images], in
    a directory whose name starts with two dots.  Its relative path,
    [..x/a\b.jpg], does not leave the root, yet it starts with the two
    characters the guard of line 100 looks for, so the guard, written to
    catch "going outside source directory", takes the fallback: the
    directory is dropped, the key is built from the base name alone (with
    its backslash turned into a slash), and the file gets the key of a
    different file that lies in the directory [a] of the root. *)
Theorem get_s3_key_drops_directory_inside_root :
  let w := Example.host Example.images [] [] in
  let filepath := "/data/images/..x/a\b.jpg" in
  inside_root w filepath "/data/images"
  /\ relative w filepath "/data/images" = Some "..x/a\b.jpg"
  /\ String.prefix ".." "..x/a\b.jpg" = true
  /\ PosixPath.name filepath = "a\b.jpg"
  /\ get_s3_key w filepath "internal" "/data/images" = "internal/a/b.jpg"
  /\ get_s3_key w filepath "internal" "/data/images"
     <> ("internal/" ++ replace_backslash "..x/a\b.jpg")%string
  /\ get_s3_key w filepath "internal" "/data/images"
     <> ("internal/" ++ PosixPath.name filepath)%string
  /\ get_s3_key w "/data/images/a/b.jpg" "internal" "/data/images"
     = get_s3_key w filepath "internal" "/data/images".
Proof.
  cbv zeta. split.
  - exists ["..x"; "a\b.jpg"]. vm_compute. reflexivity.
  - repeat split; try (vm_compute; reflexivity); vm_compute; discriminate.
Qed.




(** C2. Deletion atomicity and audit completeness, for one listed row whose
    file is gone, in a clean transaction.  The step never raises, so the
    pass goes on with the next row, and it leaves the transaction clean.
    When the live record exists and no step fails (the fetch, the audit
    insert, the remote delete, the live-row delete, the commit), the
    committed tables change at once from the old ones to the old ones with
    the live row removed and exactly one audit row appended, which carries
    the path, key and status of the removed record.  When any step fails, or
    the record is not found, the committed tables are the old ones. *)
Theorem delete_and_audit_atomic w bucket filepath key n s :
  clean (conn s) ->
  path_exists w filepath = false ->
  let r := sync_body w bucket false (filepath, key) n s in
  let t := committed (conn s) in
  (exists n', r.1 = Ok n'
     /\ forall rest,
          for_each (sync_body w bucket false) ((filepath, key) :: rest) n s
          = for_each (sync_body w bucket false) rest n' r.2)
  /\ clean (conn r.2)
  /\ match s3_backups t !! filepath with
     | Some rec =>
         if deletion_step_fails w (issued (conn s)) bucket filepath key rec
         then committed (conn r.2) = t
         else
           exists row,
             s3_backups (committed (conn r.2)) = delete filepath (s3_backups t)
             /\ s3_backups_deleted (committed (conn r.2))
                = s3_backups_deleted t ++ [row]
             /\ d_file_path row = filepath
             /\ d_s3_key row = s3_key rec
             /\ d_original_status row = status rec
             /\ row = audit_row bucket filepath rec (now w (S (issued (conn s))))
             /\ s3_calls r.2 = s3_calls s ++ [DeleteObject bucket key]
     | None => committed (conn r.2) = t
     end.
Proof.
  intros Hc Hex. cbv zeta.
  split; [|split; [now apply sync_body_keeps_clean|]].
  - destruct (sync_body_total w bucket false (filepath, key) n s) as [n' Hn'].
    exists n'. split; [exact Hn'|]. intros rest.
    apply for_each_cons_ok.
    destruct (sync_body w bucket false (filepath, key) n s) as [r s'].
    cbn in Hn'. now subst r.
  - pose proof (sync_body_outcome w bucket filepath key n s Hc Hex) as Hout.
    cbv zeta in Hout.
    destruct (s3_backups (committed (conn s)) !! filepath) as [rec|];
      [|exact (proj1 Hout)].
    destruct (deletion_step_fails w (issued (conn s)) bucket filepath key rec);
      [exact Hout|].
    destruct Hout as (_ & Hcom & Hcalls).
    exists (audit_row bucket filepath rec (now w (S (issued (conn s))))).
    rewrite Hcom. cbn. auto 10.
Qed.

(** The file [c.jpg] was archived and is gone from the disk: its record
    moves to the audit table and its object is deleted. *)
Lemma delete_and_audit_atomic_witness :
  let w := Example.host Example.images [] [] in
  let rec := Example.archived "internal/c.jpg" "internal" in
  let s := Example.at_rest {["/data/images/c.jpg" := rec]} in
  let r := sync_body w "bk" false ("/data/images/c.jpg", "internal/c.jpg") (0, 0) s in
  clean (conn s)
  /\ path_exists w "/data/images/c.jpg" = false
  /\ s3_backups (committed (conn r.2)) = ∅
  /\ s3_backups_deleted (committed (conn r.2))
     = [audit_row "bk" "/data/images/c.jpg" rec 101]
  /\ s3_calls r.2 = [DeleteObject "bk" "internal/c.jpg"].
Proof.
  cbv zeta. split; [split; reflexivity|]. split; [reflexivity|].
  pose proof (delete_and_audit_atomic (Example.host Example.images [] []) "bk"
    "/data/images/c.jpg" "internal/c.jpg" (0, 0)
    (Example.at_rest
       {["/data/images/c.jpg" := Example.archived "internal/c.jpg" "internal"]})
    (conj eq_refl eq_refl) eq_refl) as (_ & _ & H).
  cbv zeta in H.
  change (s3_backups (committed (conn (Example.at_rest
            {["/data/images/c.jpg" := Example.archived "internal/c.jpg" "internal"]})))
          !! "/data/images/c.jpg")
    with (Some (Example.archived "internal/c.jpg" "internal")) in H.
  cbv iota beta in H.
  change (deletion_step_fails _ _ _ _ _ _) with false in H. cbv iota in H.
  destruct H as (row & H1 & H2 & _ & _ & _ & -> & H3).
  rewrite H1, H2, H3. repeat split.
Defined.

(** C7, at the input where the program departs from it.  The ledger holds
    an uploaded record of source type "internal" for
    [/data/images2/c.jpg], a file that is gone; the root [/data/images]
    exists.  The path is not under the root, yet the pattern
    [/data/images%] of the listing query matches it, so the pass lists the
    row, deletes the remote object and moves the record to the audit
    table. *)
Theorem sync_deletions_takes_sibling_directory :
  let w := Example.host Example.images [] [] in
  let rec := Example.archived "internal/c.jpg" "internal" in
  let s := Example.at_rest {["/data/images2/c.jpg" := rec]} in
  let r := sync_deletions w "bk" "internal" "/data/images" false s in
  ~ path_under w (path_resolve w "/data/images") "/data/images2/c.jpg"
  /\ uploaded_like "internal" (path_resolve w "/data/images" ++ "%")
       (current (conn s))
     = [("/data/images2/c.jpg", "internal/c.jpg")]
  /\ r.1 = Ok tt
  /\ s3_calls r.2 = [DeleteObject "bk" "internal/c.jpg"]
  /\ s3_backups (committed (conn r.2)) = ∅
  /\ s3_backups_deleted (committed (conn r.2))
     = [audit_row "bk" "/data/images2/c.jpg" rec 102].
Proof.
  cbv zeta. split.
  - intros [k Hk]. vm_compute in Hk. discriminate.
  - repeat split; vm_compute; reflexivity.
Qed.

(** C9. An upload with an unreadable fingerprint: when the size of a file
    not yet archived can be read and the object store takes the file, but
    the fingerprint cannot be read, [calculate_md5] returns [None] without
    raising, the file is uploaded, and the ledger records it with status
    "uploaded", its size, and a null checksum. *)
Theorem uploaded_with_null_checksum w bucket stype spr filepath size n s :
  clean (conn s) ->
  accepts w (issued (conn s)) 3 ->
  is_uploaded (committed (conn s)) filepath = false ->
  getsize w filepath = Some size ->
  read_md5 w filepath = None ->
  upload_fails w filepath (get_s3_key w filepath stype spr) = None ->
  let r := scan_body w bucket stype spr false filepath n s in
  (forall s0, (calculate_md5 w filepath s0).1 = Ok None)
  /\ r.1 = Ok (mkCounts (S (uploaded_count n)) (error_count n) (skipped_count n))
  /\ s3_calls r.2
     = s3_calls s
       ++ [PutObject bucket (get_s3_key w filepath stype spr) filepath stype size]
  /\ exists rec,
       s3_backups (committed (conn r.2)) !! filepath = Some rec
       /\ status rec = "uploaded"
       /\ md5_checksum rec = None
       /\ file_size rec = Some size
       /\ s3_key rec = get_s3_key w filepath stype spr.
Proof.
  intros Hc Hacc Hnu Hsz Hmd Hup. cbv zeta.
  split; [intros s0; unfold calculate_md5; now rewrite Hmd|].
  pose proof (scan_body_outcome w bucket stype spr filepath n s Hc Hacc) as Hout.
  cbv zeta in Hout. rewrite Hnu, Hsz, Hup, Hmd in Hout.
  destruct Hout as (_ & Hres & Hcom & Hcalls).
  split; [exact Hres|]. split; [exact Hcalls|].
  rewrite Hcom. cbn. rewrite lookup_insert_eq.
  destruct (s3_backups (committed (conn s)) !! filepath);
    eexists; (split; [reflexivity|]); cbn; auto.
Qed.

(** The fingerprint of the new image [a.jpg] cannot be read; it is uploaded
    all the same and recorded without a checksum. *)
Lemma uploaded_with_null_checksum_witness :
  let w := Example.host Example.images ["/data/images/a.jpg"] [] in
  let s := Example.at_rest ∅ in
  let r := scan_body w "bk" "internal" "/data/images" false "/data/images/a.jpg"
             (mkCounts 0 0 0) s in
  read_md5 w "/data/images/a.jpg" = None
  /\ r.1 = Ok (mkCounts 1 0 0)
  /\ s3_calls r.2
     = [PutObject "bk" "internal/a.jpg" "/data/images/a.jpg" "internal" 10]
  /\ s3_backups (committed (conn r.2)) !! "/data/images/a.jpg"
     = Some (mkBackupRecord "internal/a.jpg" "internal" (Some 10%Z) None
               "uploaded" (Some 101)).
Proof.
  cbv zeta. split; [reflexivity|].
  pose proof (uploaded_with_null_checksum
    (Example.host Example.images ["/data/images/a.jpg"] []) "bk" "internal"
    "/data/images" "/data/images/a.jpg" 10%Z (mkCounts 0 0 0) (Example.at_rest ∅)
    (conj eq_refl eq_refl) (fun _ _ _ => eq_refl) eq_refl eq_refl eq_refl eq_refl)
    as (_ & H1 & H2 & _).
  split; [exact H1|]. split; [exact H2|]. vm_compute. reflexivity.
Defined.

(** C10. Error-upsert frame.  The statement that marks a candidate as
    failed rewrites, in a record that exists, the status alone, and inserts,
    when there is none, a row with the key it was given and null size,
    checksum and timestamp; rows of other paths and the audit table are left
    alone.  A candidate not yet archived whose upload raises, or whose
    upload succeeds and whose ledger upsert the server then refuses, ends
    with the committed ledger changed by exactly this statement, sent with
    the key computed for the file. *)
Theorem error_upsert_frame w bucket stype spr filepath n s :
  (forall t_now key t,
     let t' := stmt_effect t_now (UpsertError filepath key stype) t in
     s3_backups t' !! filepath
     = Some match s3_backups t !! filepath with
            | Some r =>
                mkBackupRecord (s3_key r) (source_type r) (file_size r)
                  (md5_checksum r) "error" (uploaded_at r)
            | None => mkBackupRecord key stype None None "error" None
            end
     /\ (forall p, p <> filepath -> s3_backups t' !! p = s3_backups t !! p)
     /\ s3_backups_deleted t' = s3_backups_deleted t)
  /\ (clean (conn s) ->
      accepts w (issued (conn s)) 3 ->
      is_uploaded (committed (conn s)) filepath = false ->
      upload_raises w filepath (get_s3_key w filepath stype spr) ->
      committed (conn (scan_body w bucket stype spr false filepath n s).2)
      = stmt_effect (now w (S (issued (conn s))))
          (UpsertError filepath (get_s3_key w filepath stype spr) stype)
          (committed (conn s)))
  /\ (forall size,
        clean (conn s) ->
        is_uploaded (committed (conn s)) filepath = false ->
        getsize w filepath = Some size ->
        upload_fails w filepath (get_s3_key w filepath stype spr) = None ->
        db_fails w (issued (conn s)) (SelectByPath filepath) = false ->
        db_fails w (S (issued (conn s)))
          (Upsert filepath (get_s3_key w filepath stype spr) stype (Some size)
             (read_md5 w filepath) "uploaded") = true ->
        db_fails w (S (S (issued (conn s))))
          (UpsertError filepath (get_s3_key w filepath stype spr) stype) = false ->
        db_fails w (S (S (S (issued (conn s))))) Commit = false ->
        committed (conn (scan_body w bucket stype spr false filepath n s).2)
        = stmt_effect (now w (S (S (issued (conn s)))))
            (UpsertError filepath (get_s3_key w filepath stype spr) stype)
            (committed (conn s))).
Proof.
  split; [|split].
  - intros t_now key t. cbv zeta. cbn. rewrite lookup_insert_eq.
    split; [now destruct (s3_backups t !! filepath)|].
    split; [|reflexivity]. intros p Hp. now rewrite lookup_insert_ne by congruence.
  - intros Hc Hacc Hnu Hraise.
    pose proof (scan_body_outcome w bucket stype spr filepath n s Hc Hacc) as Hout.
    cbv zeta in Hout. rewrite Hnu in Hout. destruct Hout as [_ Hout].
    destruct Hraise as [Hsz | Hup].
    + rewrite Hsz in Hout. tauto.
    + destruct (getsize w filepath); [|tauto].
      destruct (upload_fails w filepath _); [tauto | congruence].
  - intros size Hc Hnu Hsz Hup H0 H1 H2 H3.
    now destruct (scan_body_upsert_refused w bucket stype spr filepath size n s
                    Hc Hnu Hsz Hup H0 H1 H2 H3) as (_ & H & _).
Qed.

(** The store refuses the image [a.jpg], which an earlier run had recorded
    as failed under another key and with a size: only the status is
    rewritten.  It refuses [b.jpg] too, which has no record: a row with the
    computed key and nulls is inserted. *)
Lemma error_upsert_frame_witness :
  let w := Example.host Example.images []
             ["/data/images/a.jpg"; "/data/images/b.jpg"] in
  let old := mkBackupRecord "old/a.jpg" "internal" (Some 3%Z) (Some "ab")
               "error" (Some 5) in
  let s := Example.at_rest {["/data/images/a.jpg" := old]} in
  let t'a := committed (conn (scan_body w "bk" "internal" "/data/images" false
                                "/data/images/a.jpg" (mkCounts 0 0 0) s).2) in
  let t'b := committed (conn (scan_body w "bk" "internal" "/data/images" false
                                "/data/images/b.jpg" (mkCounts 0 0 0) s).2) in
  s3_backups t'a !! "/data/images/a.jpg"
  = Some (mkBackupRecord "old/a.jpg" "internal" (Some 3%Z) (Some "ab")
            "error" (Some 5))
  /\ s3_backups t'b !! "/data/images/b.jpg"
     = Some (mkBackupRecord "internal/b.jpg" "internal" None None "error" None)
  /\ s3_backups t'b !! "/data/images/a.jpg" = Some old.
Proof.
  cbv zeta.
  pose proof (error_upsert_frame
    (Example.host Example.images [] ["/data/images/a.jpg"; "/data/images/b.jpg"])
    "bk" "internal" "/data/images") as H.
  split; [|split].
  - destruct (H "/data/images/a.jpg" (mkCounts 0 0 0)
      (Example.at_rest {["/data/images/a.jpg" :=
         mkBackupRecord "old/a.jpg" "internal" (Some 3%Z) (Some "ab") "error" (Some 5)]}))
      as (_ & Ha & _).
    rewrite Ha; [vm_compute; reflexivity | split; reflexivity
                | intros ? ? ?; reflexivity | reflexivity
                | right; vm_compute; discriminate].
  - destruct (H "/data/images/b.jpg" (mkCounts 0 0 0)
      (Example.at_rest {["/data/images/a.jpg" :=
         mkBackupRecord "old/a.jpg" "internal" (Some 3%Z) (Some "ab") "error" (Some 5)]}))
      as (_ & Hb & _).
    rewrite Hb; [vm_compute; reflexivity | split; reflexivity
                | intros ? ? ?; reflexivity | reflexivity
                | right; vm_compute; discriminate].
  - destruct (H "/data/images/b.jpg" (mkCounts 0 0 0)
      (Example.at_rest {["/data/images/a.jpg" :=
         mkBackupRecord "old/a.jpg" "internal" (Some 3%Z) (Some "ab") "error" (Some 5)]}))
      as (_ & Hb & _).
    rewrite Hb; [vm_compute; reflexivity | split; reflexivity
                | intros ? ? ?; reflexivity | reflexivity
                | right; vm_compute; discriminate].
Defined.




(** C1. Upload-pass idempotence.  A candidate whose ledger record has status
    "uploaded" is passed over: its step leaves the tables and the object
    store as they are, in a dry run or not, whatever fails.  Hence, for two
    runs in succession (neither a dry run) over a source tree with the same
    candidates, the first on a server that accepts every statement and with
    files that can be read and sent: the first run uploads each candidate
    that was not yet archived exactly once and nothing else, every candidate
    is archived after it, and the second run makes no call to the object
    store and leaves the tables as they are, whatever fails in it. *)
Theorem upload_pass_idempotent w1 w2 bucket stype source_path s0 :
  path_exists w1 source_path = true ->
  path_exists w2 source_path = true ->
  find_image_files w2 source_path = find_image_files w1 source_path ->
  db_reliable w1 ->
  uploads_succeed w1 stype (path_resolve w1 source_path)
    (find_image_files w1 source_path) ->
  clean (conn s0) ->
  let s1 := (scan_and_upload w1 bucket stype source_path false s0).2 in
  let s2 := (scan_and_upload w2 bucket stype source_path false s1).2 in
  (forall w spr dry_run filepath n s,
     clean (conn s) ->
     is_uploaded (committed (conn s)) filepath = true ->
     same_stores s (scan_body w bucket stype spr dry_run filepath n s).2)
  /\ (exists new,
        s3_calls s1 = s3_calls s0 ++ new
        /\ forall p,
             uploads_of p new
             = if is_uploaded (committed (conn s0)) p then 0
               else if bool_decide (p ∈ find_image_files w1 source_path)
                    then 1 else 0)
  /\ (forall p, p ∈ find_image_files w1 source_path ->
                is_uploaded (committed (conn s1)) p = true)
  /\ s3_calls s2 = s3_calls s1
  /\ committed (conn s2) = committed (conn s1)
  /\ current (conn s2) = current (conn s1).
Proof.
  intros Hex1 Hex2 Hsame Hrel Hok Hc. cbv zeta.
  split.
  { intros w spr dry_run filepath n s Hcs Hup.
    now apply scan_body_uploaded_skipped. }
  destruct (scan_and_upload_unfold w1 bucket stype source_path false s0 Hex1)
    as (_ & Hconn1 & Hcalls1).
  set (s1 := (scan_and_upload w1 bucket stype source_path false s0).2) in *.
  set (s_in := (log (LogScanning stype source_path) s0).2) in *.
  assert (Hc_in : clean (conn s_in)) by exact Hc.
  destruct (scan_loop_uploads_once w1 bucket stype (path_resolve w1 source_path)
              (find_image_files w1 source_path) (mkCounts 0 0 0) s_in
              Hrel Hc_in Hok) as (new & Hnew & Hcount & Hupl).
  assert (Hc1 : clean (conn s1)).
  { rewrite Hconn1. now apply scan_loop_keeps_clean. }
  assert (Hall : forall p, p ∈ find_image_files w1 source_path ->
                           is_uploaded (committed (conn s1)) p = true).
  { intros p Hp. rewrite Hconn1, Hupl, (bool_decide_true _ Hp).
    apply orb_true_r. }
  split; [|split; [exact Hall|]].
  { exists new. split; [|exact Hcount]. now rewrite Hcalls1, Hnew. }
  destruct (scan_and_upload_unfold w2 bucket stype source_path false s1 Hex2)
    as (_ & Hconn2 & Hcalls2).
  rewrite Hcalls2, Hconn2, Hsame.
  pose proof (scan_loop_all_uploaded w2 bucket stype (path_resolve w2 source_path)
                (find_image_files w1 source_path) (mkCounts 0 0 0)
                (log (LogScanning stype source_path) s1).2 Hc1 Hall)
    as (H1 & H2 & H3).
  repeat split; assumption.
Qed.

(** The tree holds the new image [a.jpg] and the archived image [b.jpg]: the
    first run uploads [a.jpg] once, the second run, on a host where nothing
    can be sent any more, uploads nothing. *)
Lemma upload_pass_idempotent_witness :
  let w1 := Example.host Example.images [] [] in
  let w2 := Example.host Example.images []
              ["/data/images/a.jpg"; "/data/images/b.jpg"] in
  let s0 := Example.at_rest
              {["/data/images/b.jpg" := Example.archived "internal/b.jpg" "internal"]} in
  let s1 := (scan_and_upload w1 "bk" "internal" "/data/images" false s0).2 in
  let s2 := (scan_and_upload w2 "bk" "internal" "/data/images" false s1).2 in
  s3_calls s1
  = [PutObject "bk" "internal/a.jpg" "/data/images/a.jpg" "internal" 10]
  /\ s3_calls s2 = s3_calls s1
  /\ committed (conn s2) = committed (conn s1).
Proof.
  cbv zeta. split; [vm_compute; reflexivity|].
  pose proof (upload_pass_idempotent
    (Example.host Example.images [] [])
    (Example.host Example.images [] ["/data/images/a.jpg"; "/data/images/b.jpg"])
    "bk" "internal" "/data/images"
    (Example.at_rest
       {["/data/images/b.jpg" := Example.archived "internal/b.jpg" "internal"]})
    eq_refl eq_refl eq_refl (fun _ _ => eq_refl)
    (fun fp _ => conj (fun H : Some 10%Z = None => eq_ind (Some 10%Z)
       (fun o => match o with Some _ => True | None => False end) I None H) eq_refl)
    (conj eq_refl eq_refl)) as (_ & _ & _ & H1 & H2 & _).
  split; [exact H1 | exact H2].
Defined.

(* ===================================================================== *)
(** ** Further properties of the program *)
(* ===================================================================== *)



(** X2. A real upload pass started in a clean transaction only adds: it
    leaves the transaction clean, the audit table as it was, the rows of
    paths that are not candidates as they were, removes no row, and the only
    calls it makes to the object store are uploads of candidates under the
    source type of the pass.  This holds whatever fails. *)
Theorem upload_pass_only_uploads w bucket stype source_path s :
  clean (conn s) ->
  let s' := (scan_and_upload w bucket stype source_path false s).2 in
  let candidates := find_image_files w source_path in
  clean (conn s')
  /\ s3_backups_deleted (committed (conn s')) = s3_backups_deleted (committed (conn s))
  /\ (forall p, p ∉ candidates ->
        s3_backups (committed (conn s')) !! p = s3_backups (committed (conn s)) !! p)
  /\ (forall p, is_Some (s3_backups (committed (conn s)) !! p) ->
                is_Some (s3_backups (committed (conn s')) !! p))
  /\ exists new,
       s3_calls s' = s3_calls s ++ new
       /\ Forall (fun c => exists key fp size,
                    c = PutObject bucket key fp stype size /\ fp ∈ candidates) new.
Proof.
  intros Hc. cbv zeta. split; [now apply scan_and_upload_keeps_clean|].
  now apply scan_and_upload_frame.
Qed.

Lemma upload_pass_only_uploads_witness :
  let w := Example.host Example.images [] ["/data/images/a.jpg"] in
  let old := Example.archived "internal/old.jpg" "internal" in
  let s := Example.at_rest {["/data/images/old.jpg" := old]} in
  let s' := (scan_and_upload w "bk" "internal" "/data/images" false s).2 in
  clean (conn s)
  /\ s3_backups (committed (conn s')) !! "/data/images/old.jpg" = Some old
  /\ s3_backups_deleted (committed (conn s')) = [].
Proof.
  cbv zeta. split; [split; reflexivity|].
  pose proof (upload_pass_only_uploads
    (Example.host Example.images [] ["/data/images/a.jpg"]) "bk" "internal"
    "/data/images"
    (Example.at_rest
       {["/data/images/old.jpg" := Example.archived "internal/old.jpg" "internal"]})
    (conj eq_refl eq_refl)) as (_ & Haud & Hother & _).
  split; [|exact Haud].
  rewrite Hother; [reflexivity|].
  change (find_image_files _ _) with ["/data/images/a.jpg"; "/data/images/b.jpg"].
  intros H. repeat (apply elem_of_cons in H as [H|H]; [discriminate|]).
  now apply elem_of_nil in H.
Defined.

(** X3. The deletion pass started in a clean transaction only removes: the
    live table shrinks, the audit table only grows at its end, a record whose
    file exists or whose source type or status is not the one listed is kept
    as it is, and the only calls to the object store are deletes of the keys
    of uploaded records of this source type whose file is gone.  When the
    pass returns normally the transaction is clean.  This holds with or
    without the dry-run flag and whatever fails. *)
Theorem deletion_pass_only_deletes w bucket stype source_path dry_run s :
  clean (conn s) ->
  let r := sync_deletions w bucket stype source_path dry_run s in
  let live := s3_backups (committed (conn s)) in
  let live' := s3_backups (committed (conn r.2)) in
  live' ⊆ live
  /\ s3_backups_deleted (committed (conn s))
       `prefix_of` s3_backups_deleted (committed (conn r.2))
  /\ (forall p rec,
        live !! p = Some rec ->
        path_exists w p = true \/ source_type rec <> stype
        \/ status rec <> "uploaded" ->
        live' !! p = Some rec)
  /\ (exists new,
        s3_calls r.2 = s3_calls s ++ new
        /\ Forall (fun c => exists p rec,
                     c = DeleteObject bucket (s3_key rec)
                     /\ live !! p = Some rec
                     /\ path_exists w p = false
                     /\ source_type rec = stype
                     /\ status rec = "uploaded") new)
  /\ (r.1 = Ok tt -> clean (conn r.2)).
Proof.
  intros Hc. cbv zeta.
  destruct (sync_deletions_frame w bucket stype source_path dry_run s Hc)
    as (Hsub & Hpre & Hsame & new & Hnew & Hall).
  split; [exact Hsub|]. split; [exact Hpre|]. split; [|split].
  - intros p rec Hrec Hp. rewrite Hsame; [exact Hrec|].
    destruct Hp as [Hp | Hp]; [now left | right].
    intros k Hk. apply uploaded_like_spec in Hk as (r & Hr & _ & Hst & Hup & _).
    rewrite Hrec in Hr. injection Hr as <-. tauto.
  - exists new. split; [exact Hnew|].
    eapply Forall_impl; [exact Hall|]. intros c (p & k & -> & Hk & Hex).
    apply uploaded_like_spec in Hk as (r & Hr & -> & Hst & Hup & _).
    exists p, r. auto.
  - now apply sync_deletions_keeps_clean.
Qed.

Lemma deletion_pass_only_deletes_witness :
  let w := Example.host Example.images [] [] in
  let kept := Example.archived "internal/a.jpg" "internal" in
  let s := Example.at_rest
             (<["/data/images/a.jpg" := kept]>
                {["/data/images/c.jpg" := Example.archived "internal/c.jpg" "internal"]}) in
  let r := sync_deletions w "bk" "internal" "/data/images" false s in
  clean (conn s)
  /\ path_exists w "/data/images/a.jpg" = true
  /\ s3_backups (committed (conn r.2)) !! "/data/images/a.jpg" = Some kept.
Proof.
  cbv zeta. split; [split; reflexivity|]. split; [reflexivity|].
  pose proof (deletion_pass_only_deletes (Example.host Example.images [] []) "bk"
    "internal" "/data/images" false
    (Example.at_rest
       (<["/data/images/a.jpg" := Example.archived "internal/a.jpg" "internal"]>
          {["/data/images/c.jpg" := Example.archived "internal/c.jpg" "internal"]}))
    (conj eq_refl eq_refl)) as (_ & _ & Hkeep & _).
  apply Hkeep; [reflexivity | left; reflexivity].
Defined.

(** X4. What a real deletion pass that returns normally has done, on a
    server and an object store that refuse nothing, for a root that exists
    and whose resolved path holds none of the characters special to [LIKE],
    started in a clean transaction.  (The pass returns normally when no
    existence test of a listed path raises; the model takes these tests to
    answer, so the normal return is a hypothesis here and not a
    conclusion.)  The pass has removed exactly the stale records: the
    uploaded records of the source type whose path starts with the text of
    the resolved root and whose file is gone.  Every other record is kept as
    it is.  The audit table has gained one row for each stale record and no
    other, each a copy of the record it replaces, and the object store has
    received one delete for each of these rows, in the same order, with the
    key of the record. *)
Theorem deletion_pass_removes_stale_records w bucket stype source_path s :
  db_reliable w ->
  (forall k, delete_fails w k = None) ->
  clean (conn s) ->
  path_exists w source_path = true ->
  like_literal (path_resolve w source_path) = true ->
  (sync_deletions w bucket stype source_path false s).1 = Ok tt ->
  let r := sync_deletions w bucket stype source_path false s in
  let t := committed (conn s) in
  let root := path_resolve w source_path in
  clean (conn r.2)
  /\ (forall p, s3_backups (committed (conn r.2)) !! p
                = if stale w stype root t p then None else s3_backups t !! p)
  /\ exists rows,
       s3_backups_deleted (committed (conn r.2)) = s3_backups_deleted t ++ rows
       /\ NoDup (d_file_path <$> rows)
       /\ (forall p, stale w stype root t p = true <-> p ∈ d_file_path <$> rows)
       /\ Forall (fun row =>
                    exists rec t_del,
                      s3_backups t !! d_file_path row = Some rec
                      /\ row = audit_row bucket (d_file_path row) rec t_del) rows
       /\ s3_calls r.2
          = s3_calls s ++ map (fun row => DeleteObject bucket (d_s3_key row)) rows.
Proof.
  intros Hrel Hdel Hc Hex Hlit _. cbv zeta.
  pose proof Hc as [Hcur Hab].
  destruct (sync_deletions_unfold w bucket stype source_path false s Hex Hab (Hrel _ _))
    as (_ & Hconn & Hcalls).
  cbv zeta in Hconn, Hcalls. rewrite Hcur in Hconn, Hcalls.
  set (l := uploaded_like stype (path_resolve w source_path ++ "%") (committed (conn s))) in *.
  match type of Hconn with _ = conn (for_each _ _ ?a ?st).2 =>
    destruct (sync_loop_reliable w bucket l a st Hrel Hdel) as
      (_ & Hcl & Hlive & (rows & Haud & Hrows) & Hs3) end.
  { split; reflexivity. }
  { apply uploaded_like_NoDup. }
  { intros p k Hin. apply uploaded_like_spec in Hin as (rec & Hrec & _). cbn. eauto. }
  cbn [conn committed s3_calls] in Hlive, Haud, Hrows, Hs3.
  rewrite Hconn, Hcalls. split; [exact Hcl|].
  set (gone := filter (fun pk => path_exists w pk.1 = false) l) in *.
  assert (Hpaths : d_file_path <$> rows = gone.*1).
  { clear -Hrows. induction Hrows as [|pk row g rs (rec & td & _ & ->) _ IH];
      [reflexivity|]. cbn. now rewrite IH. }
  split.
  - intros p. rewrite Hlive.
    destruct (stale w stype (path_resolve w source_path) (committed (conn s)) p) eqn:Hst.
    + apply (stale_listed _ _ _ _ _ Hlit) in Hst. now rewrite bool_decide_true.
    + rewrite bool_decide_false; [reflexivity|].
      intros Hin. apply (stale_listed _ _ _ _ _ Hlit) in Hin. congruence.
  - exists rows. split; [exact Haud|]. rewrite Hpaths. split; [|split; [|split]].
    + apply NoDup_fmap_fst.
      * intros p k1 k2 H1 H2.
        apply list_elem_of_filter in H1 as [_ H1].
        apply list_elem_of_filter in H2 as [_ H2].
        apply uploaded_like_spec in H1 as (r1 & Hr1 & -> & _).
        apply uploaded_like_spec in H2 as (r2 & Hr2 & -> & _). congruence.
      * apply NoDup_filter. eapply NoDup_fmap_1. apply uploaded_like_NoDup.
    + intros p. now apply stale_listed.
    + clear -Hrows. induction Hrows as [|pk row g rs (rec & td & Hr & ->) _ IH];
        constructor; [|exact IH]. cbn. eauto.
    + rewrite Hs3. f_equal.
      assert (Hkeys : Forall (fun pk => (pk : string * string) ∈ l) gone).
      { apply Forall_forall. intros pk Hin.
        now apply list_elem_of_filter in Hin as [_ Hin]. }
      clear -Hrows Hkeys. induction Hrows as [|pk row g rs (rec & td & Hr & ->) _ IH];
        [reflexivity|].
      apply Forall_cons in Hkeys as [Hk Hkeys]. cbn. rewrite IH by assumption.
      f_equal. f_equal. destruct pk as [p k].
      apply uploaded_like_spec in Hk as (r' & Hr' & -> & _). cbn in *. congruence.
Qed.

(** Of two archived files, the one that is gone leaves the ledger and the
    one that is still there stays. *)
Lemma deletion_pass_removes_stale_records_witness :
  let w := Example.host Example.images [] [] in
  let kept := Example.archived "internal/a.jpg" "internal" in
  let s := Example.at_rest
             (<["/data/images/a.jpg" := kept]>
                {["/data/images/c.jpg" := Example.archived "internal/c.jpg" "internal"]}) in
  let r := sync_deletions w "bk" "internal" "/data/images" false s in
  db_reliable w
  /\ clean (conn s)
  /\ r.1 = Ok tt
  /\ s3_backups (committed (conn r.2)) !! "/data/images/c.jpg" = None
  /\ s3_backups (committed (conn r.2)) !! "/data/images/a.jpg" = Some kept.
Proof.
  cbv zeta.
  assert (Hrel : db_reliable (Example.host Example.images [] []))
    by (intros n stmt; reflexivity).
  assert (Hcl : clean (conn (Example.at_rest
            (<["/data/images/a.jpg" := Example.archived "internal/a.jpg" "internal"]>
               {["/data/images/c.jpg" := Example.archived "internal/c.jpg" "internal"]}))))
    by (split; reflexivity).
  split; [exact Hrel|]. split; [exact Hcl|]. split; [reflexivity|].
  pose proof (deletion_pass_removes_stale_records
    (Example.host Example.images [] []) "bk" "internal" "/data/images" _
    Hrel (fun k => eq_refl) Hcl eq_refl eq_refl eq_refl) as (_ & Hlive & _).
  split; rewrite Hlive; reflexivity.
Defined.

(** X5. The candidates of a root are the entries of its recursive listing,
    in the order of the listing, that are regular files, whose suffix in
    lower case is one of the eleven extensions the source lists (so the
    match is blind to case, and the upper-case copies the source adds to the
    set are never needed), and none of whose path components bears the name
    of an excluded directory; a root that does not exist has none.  The name
    of a candidate has at least one character before its suffix, so a file
    named just [.jpg] is no candidate. *)
Theorem candidates_characterised w base_dir filepath :
  (filepath ∈ find_image_files w base_dir
   <-> path_exists w base_dir = true
       /\ filepath ∈ rglob w base_dir
       /\ is_file w filepath = true
       /\ lower (PosixPath.suffix filepath) ∈ lower_extensions
       /\ forall d, d ∈ EXCLUDE_DIRS -> d ∉ PosixPath.parts filepath)
  /\ find_image_files w base_dir `sublist_of` rglob w base_dir
  /\ (filepath ∈ find_image_files w base_dir ->
      exists c stem,
        PosixPath.name filepath = String c (stem ++ PosixPath.suffix filepath)).
Proof.
  split; [apply find_image_files_spec|]. split.
  - unfold find_image_files. destruct (path_exists w base_dir); cbn [negb].
    + apply sublist_filter.
    + apply sublist_nil_l.
  - intros Hin. apply find_image_files_spec in Hin as (_ & _ & _ & Hext & _).
    apply suffix_of_name. intros Hnil. rewrite Hnil in Hext.
    revert Hext. unfold lower_extensions. cbn. intros Hext.
    repeat (apply elem_of_cons in Hext as [Hext|Hext]; [discriminate|]).
    now apply elem_of_nil in Hext.
Qed.

(** X6. A root that lies below (or is) a directory with the name of an
    excluded one yields no candidate at all: the test for excluded
    directories looks at every component of the full path, those of the root
    included.  The listing of a root holds paths of the form root, slash,
    relative path. *)
Theorem excluded_root_yields_nothing w base_dir d :
  d ∈ EXCLUDE_DIRS ->
  d ∈ PosixPath.parts base_dir ->
  (forall filepath, filepath ∈ rglob w base_dir ->
     exists rel, filepath = (base_dir ++ "/" ++ rel)%string) ->
  find_image_files w base_dir = [].
Proof.
  intros Hd Hin Hrglob. unfold find_image_files.
  destruct (path_exists w base_dir); cbn [negb]; [|reflexivity].
  apply elem_of_nil_inv. intros fp Hfp.
  apply list_elem_of_filter in Hfp as [Himg Hfp].
  destruct (Hrglob fp Hfp) as [rel Hrel].
  rewrite (excluded_part_of_root w base_dir d fp rel Hd Hin Hrel) in Himg.
  discriminate.
Qed.

(** The images below [/srv/backups/photos] are never candidates. *)
Lemma excluded_root_yields_nothing_witness :
  "backups" ∈ PosixPath.parts "/srv/backups/photos"
  /\ rglob Example.vault "/srv/backups/photos"
     = ["/srv/backups/photos/a.jpg"; "/srv/backups/photos/2024/b.png"]
  /\ find_image_files Example.vault "/srv/backups/photos" = [].
Proof.
  assert (Hp : "backups" ∈ PosixPath.parts "/srv/backups/photos")
    by (apply (bool_decide_unpack _); vm_compute; exact I).
  split; [exact Hp|]. split; [reflexivity|].
  apply (excluded_root_yields_nothing Example.vault "/srv/backups/photos" "backups").
  - apply (bool_decide_unpack _). vm_compute. exact I.
  - exact Hp.
  - intros fp Hfp.
    change (rglob Example.vault "/srv/backups/photos")
      with ["/srv/backups/photos/a.jpg"; "/srv/backups/photos/2024/b.png"] in Hfp.
    apply elem_of_cons in Hfp as [-> | Hfp]; [now exists "a.jpg"|].
    apply elem_of_cons in Hfp as [-> | Hfp]; [now exists "2024/b.png"|].
    now apply elem_of_nil in Hfp.
Defined.

(** X7. Insert, then look up.  In a clean transaction, on a server that
    accepts the next three statements, [insert_into_database] returns
    normally and commits: the row of the path now holds the new key, size,
    checksum, status and upload time, while its source type is the one of
    the row that was there (the conflict clause does not update it) or the
    given one for a new row; nothing else changes, and [file_in_database]
    then finds the key and the status just written. *)
Theorem insert_then_lookup w filepath key stype size md5 st s :
  clean (conn s) ->
  accepts w (issued (conn s)) 3 ->
  let r := insert_into_database w filepath key stype size md5 st s in
  let t := committed (conn s) in
  let row :=
    mkBackupRecord key
      (match s3_backups t !! filepath with
       | Some old => source_type old
       | None => stype
       end)
      (Some size) md5 st (Some (now w (issued (conn s)))) in
  r.1 = Ok tt
  /\ clean (conn r.2)
  /\ committed (conn r.2)
     = mkTables (<[filepath := row]> (s3_backups t)) (s3_backups_deleted t)
  /\ s3_calls r.2 = s3_calls s
  /\ (file_in_database w filepath r.2).1 = Ok (Some (key, st)).
Proof.
  intros [Hcur Hab] Hacc. cbv zeta. unfold_run.
  rewrite Hab, Hcur. cbn.
  rewrite (Hacc (issued (conn s))) by lia. cbn.
  rewrite (Hacc (S (issued (conn s)))) by lia. cbn.
  rewrite (Hacc (S (S (issued (conn s))))) by lia. cbn.
  split; [reflexivity|]. split; [split; reflexivity|].
  split; [|split; [reflexivity|]].
  - now destruct (s3_backups (committed (conn s)) !! filepath).
  - rewrite lookup_insert_eq.
    now destruct (s3_backups (committed (conn s)) !! filepath).
Qed.

(** A file first archived as "external" and inserted again as "internal"
    keeps the source type "external". *)
Lemma insert_then_lookup_witness :
  let w := Example.host Example.images [] [] in
  let s := Example.at_rest
             {["/data/images/a.jpg" := Example.archived "external/a.jpg" "external"]} in
  let r := insert_into_database w "/data/images/a.jpg" "internal/a.jpg" "internal"
             10%Z None "uploaded" s in
  clean (conn s)
  /\ accepts w (issued (conn s)) 3
  /\ s3_backups (committed (conn r.2)) !! "/data/images/a.jpg"
     = Some (mkBackupRecord "internal/a.jpg" "external" (Some 10%Z) None
               "uploaded" (Some 100))
  /\ (file_in_database w "/data/images/a.jpg" r.2).1
     = Ok (Some ("internal/a.jpg", "uploaded")).
Proof.
  cbv zeta.
  assert (Hcl : clean (conn (Example.at_rest
            {["/data/images/a.jpg" := Example.archived "external/a.jpg" "external"]})))
    by (split; reflexivity).
  assert (Hacc : accepts (Example.host Example.images [] [])
                   (issued (conn (Example.at_rest
                      {["/data/images/a.jpg"
                        := Example.archived "external/a.jpg" "external"]}))) 3)
    by (intros i stmt _; reflexivity).
  split; [exact Hcl|]. split; [exact Hacc|].
  pose proof (insert_then_lookup (Example.host Example.images [] [])
    "/data/images/a.jpg" "internal/a.jpg" "internal" 10%Z None "uploaded" _
    Hcl Hacc) as (_ & _ & Hcom & _ & Hfind).
  split; [|exact Hfind]. rewrite Hcom. reflexivity.
Defined.

(** X8. A failed insert leaves nothing behind.  When the transaction is
    already aborted, or the server refuses the upsert or its commit,
    [insert_into_database] logs the failure, rolls back and raises the
    database error again: the committed tables are the old ones, the
    transaction is clean (what was pending is gone), and the object store
    is not called. *)
Theorem insert_failure_rolls_back w filepath key stype size md5 st s :
  aborted (conn s) = true
  \/ db_fails w (issued (conn s)) (Upsert filepath key stype (Some size) md5 st) = true
  \/ db_fails w (S (issued (conn s))) Commit = true ->
  let r := insert_into_database w filepath key stype size md5 st s in
  r.1 = Raise DatabaseError
  /\ clean (conn r.2)
  /\ committed (conn r.2) = committed (conn s)
  /\ s3_calls r.2 = s3_calls s
  /\ logs r.2 = logs s ++ [LogInsertFailed].
Proof.
  intros H. cbv zeta. unfold_run.
  destruct (aborted (conn s)) eqn:Hab; cbn.
  - repeat split; reflexivity.
  - destruct H as [H | [H | H]]; [discriminate | |].
    + rewrite H. cbn. repeat split; reflexivity.
    + destruct (db_fails w (issued (conn s)) _); cbn; [repeat split; reflexivity|].
      rewrite H. cbn. repeat split; reflexivity.
Qed.

(** An insert sent in an aborted transaction with a pending row. *)
Lemma insert_failure_rolls_back_witness :
  let w := Example.host Example.images [] [] in
  let pending :=
    mkTables {["/data/images/b.jpg" := Example.archived "internal/b.jpg" "internal"]} [] in
  let s := mkState (mkConn (mkTables ∅ []) pending true 4) [] [] in
  let r := insert_into_database w "/data/images/a.jpg" "internal/a.jpg" "internal"
             10%Z None "uploaded" s in
  r.1 = Raise DatabaseError
  /\ current (conn r.2) = mkTables ∅ []
  /\ committed (conn r.2) = mkTables ∅ [].
Proof.
  cbv zeta.
  pose proof (insert_failure_rolls_back (Example.host Example.images [] [])
    "/data/images/a.jpg" "internal/a.jpg" "internal" 10%Z None "uploaded"
    (mkState (mkConn (mkTables ∅ [])
                (mkTables {["/data/images/b.jpg"
                            := Example.archived "internal/b.jpg" "internal"]} [])
                true 4) [] [])
    (or_introl eq_refl)) as (Hres & [Hcur _] & Hcom & _).
  split; [exact Hres|]. split; [|exact Hcom]. rewrite Hcur. exact Hcom.
Defined.

(** X9. The outcomes of a real upload of one file.  When the size cannot
    be read the call raises the file-system error, nothing is sent and the
    checksum is not computed.  When the object store (or opening the file)
    fails, the same exception is raised again after one log line, which
    tells a client error from any other, and nothing is recorded as sent.
    Otherwise exactly one object is put, under the given key, and the call
    returns the size with the checksum, which is null when the file could
    not be read for it: a missing checksum does not stop the upload.  The
    ledger connection is never touched. *)
Theorem upload_outcomes w bucket filepath key stype s :
  let r := upload_file_to_s3 w bucket filepath key stype false s in
  conn r.2 = conn s
  /\ match getsize w filepath with
     | None =>
         r.1 = Raise OSError
         /\ s3_calls r.2 = s3_calls s
         /\ logs r.2 = logs s ++ [LogUploadUnexpected filepath]
     | Some size =>
         match upload_fails w filepath key with
         | Some e =>
             r.1 = Raise e
             /\ s3_calls r.2 = s3_calls s
             /\ last (logs r.2)
                = Some (match e with
                        | ClientError => LogUploadFailed filepath
                        | _ => LogUploadUnexpected filepath
                        end)
         | None =>
             r.1 = Ok (size, read_md5 w filepath)
             /\ s3_calls r.2
                = s3_calls s ++ [PutObject bucket key filepath stype size]
             /\ last (logs r.2) = Some (LogUploaded filepath bucket key)
         end
     end.
Proof.
  cbv zeta. unfold_run.
  destruct (getsize w filepath) as [size|]; cbn; [|auto].
  destruct (read_md5 w filepath) as [d|]; cbn;
    (destruct (upload_fails w filepath key) as [e|]; cbn;
     [destruct e; cbn; rewrite ?last_snoc; auto | rewrite ?last_snoc; auto]).
Qed.

(** X10. Files outside the resolved root share keys: the key of a file
    whose resolved path is not inside the resolved root is built from its
    base name alone, so two such files with the same base name get the same
    key, whatever their directories. *)
Theorem fallback_keys_collide w filepath1 filepath2 stype source_path :
  ~ inside_root w filepath1 source_path ->
  ~ inside_root w filepath2 source_path ->
  PosixPath.name filepath1 = PosixPath.name filepath2 ->
  get_s3_key w filepath1 stype source_path
  = get_s3_key w filepath2 stype source_path.
Proof.
  intros H1 H2 Hname.
  rewrite (get_s3_key_outside w filepath1 stype source_path H1).
  rewrite (get_s3_key_outside w filepath2 stype source_path H2).
  now rewrite Hname.
Qed.

(** Two different files named [x.jpg] outside the root. *)
Lemma fallback_keys_collide_witness :
  let w := Example.host Example.images [] [] in
  ~ inside_root w "/mnt/a/x.jpg" "/data/images"
  /\ ~ inside_root w "/mnt/b/x.jpg" "/data/images"
  /\ get_s3_key w "/mnt/a/x.jpg" "internal" "/data/images"
     = get_s3_key w "/mnt/b/x.jpg" "internal" "/data/images"
  /\ get_s3_key w "/mnt/b/x.jpg" "internal" "/data/images" = "internal/x.jpg".
Proof.
  cbv zeta.
  assert (H1 : ~ inside_root (Example.host Example.images [] [])
                 "/mnt/a/x.jpg" "/data/images")
    by (intros [k Hk]; vm_compute in Hk; discriminate).
  assert (H2 : ~ inside_root (Example.host Example.images [] [])
                 "/mnt/b/x.jpg" "/data/images")
    by (intros [k Hk]; vm_compute in Hk; discriminate).
  split; [exact H1|]. split; [exact H2|]. split; [|reflexivity].
  apply (fallback_keys_collide (Example.host Example.images [] [])
           "/mnt/a/x.jpg" "/mnt/b/x.jpg" "internal" "/data/images" H1 H2).
  reflexivity.
Defined.

(** X11. Keys of different source types never meet: a key starts with its
    source type and a slash, so two keys built for source types that hold
    no slash are equal only when the source types are. *)
Theorem keys_carry_their_source_type w filepath1 filepath2 stype1 stype2
    source_path1 source_path2 :
  no_slash stype1 = true ->
  no_slash stype2 = true ->
  get_s3_key w filepath1 stype1 source_path1
  = get_s3_key w filepath2 stype2 source_path2 ->
  stype1 = stype2.
Proof.
  intros H1 H2 Heq.
  destruct (get_s3_key_shape w filepath1 stype1 source_path1) as (r1 & E1 & _).
  destruct (get_s3_key_shape w filepath2 stype2 source_path2) as (r2 & E2 & _).
  rewrite E1, E2 in Heq. eapply slash_terminated_inj; eauto.
Qed.

(** The same file under the roots "internal" and "external". *)
Lemma keys_carry_their_source_type_witness :
  let w := Example.host Example.images [] [] in
  no_slash "internal" = true
  /\ no_slash "external" = true
  /\ get_s3_key w "/data/images/a.jpg" "internal" "/data/images"
     <> get_s3_key w "/data/images/a.jpg" "external" "/data/images".
Proof.
  cbv zeta. split; [reflexivity|]. split; [reflexivity|]. intros Heq.
  pose proof (keys_carry_their_source_type (Example.host Example.images [] [])
    "/data/images/a.jpg" "/data/images/a.jpg" "internal" "external"
    "/data/images" "/data/images" eq_refl eq_refl Heq) as H.
  discriminate H.
Defined.

(** X12. For a root without the characters the [LIKE] operator treats as
    special, the rows the deletion pass lists are the uploaded records of
    the source type whose path has the resolved root as a plain string
    prefix: no separator is asked for after the root. *)
Theorem listing_is_string_prefix stype root t p key :
  like_literal root = true ->
  (p, key) ∈ uploaded_like stype (root ++ "%") t
  <-> exists r, s3_backups t !! p = Some r /\ key = s3_key r
                /\ source_type r = stype /\ status r = "uploaded"
                /\ String.prefix root p = true.
Proof.
  intros Hlit. rewrite uploaded_like_spec.
  now rewrite like_match_prefix by assumption.
Qed.

(** The record of [/data/images/2024/a.jpg] is listed for the root
    [/data/images]. *)
Lemma listing_is_string_prefix_witness :
  let rec := Example.archived "internal/2024/a.jpg" "internal" in
  like_literal "/data/images" = true
  /\ ("/data/images/2024/a.jpg", "internal/2024/a.jpg")
     ∈ uploaded_like "internal" "/data/images%"
         (mkTables {["/data/images/2024/a.jpg" := rec]} []).
Proof.
  cbv zeta. split; [reflexivity|].
  apply (proj2 (listing_is_string_prefix "internal" "/data/images"
                  (mkTables {["/data/images/2024/a.jpg"
                              := Example.archived "internal/2024/a.jpg" "internal"]} [])
                  "/data/images/2024/a.jpg" "internal/2024/a.jpg" eq_refl)).
  exists (Example.archived "internal/2024/a.jpg" "internal").
  repeat split; reflexivity.
Defined.

(** X13. An underscore in the resolved root is a wildcard of the listing
    query: the root is pasted into the [LIKE] pattern as it is, so the
    uploaded record of a path that has any single ASCII character where the
    root has the underscore is listed by the deletion pass as well.  (The
    statement stops at ASCII characters, which are one byte each: the
    matcher of this file lets the underscore take one byte, where the server
    takes one character.) *)
Theorem underscore_in_root_is_wildcard stype a b c rest t r :
  like_literal a = true ->
  like_literal b = true ->
  nat_of_ascii c < 128 ->
  s3_backups t !! (a ++ String c (b ++ rest))%string = Some r ->
  source_type r = stype ->
  status r = "uploaded" ->
  ((a ++ String c (b ++ rest))%string, s3_key r)
  ∈ uploaded_like stype ((a ++ "_" ++ b) ++ "%") t.
Proof.
  intros Ha Hb _ Hr Hst Hup. apply uploaded_like_spec. exists r.
  rewrite like_match_underscore by assumption. auto.
Qed.

(** The root [/data/my_images] lists the record of a file below
    [/data/my-images]. *)
Lemma underscore_in_root_is_wildcard_witness :
  let rec := Example.archived "internal/c.jpg" "internal" in
  ("/data/my-images/c.jpg", "internal/c.jpg")
  ∈ uploaded_like "internal" "/data/my_images%"
      (mkTables {["/data/my-images/c.jpg" := rec]} []).
Proof.
  cbv zeta.
  apply (underscore_in_root_is_wildcard "internal" "/data/my" "images" "-"
           "/c.jpg"
           (mkTables {["/data/my-images/c.jpg"
                       := Example.archived "internal/c.jpg" "internal"]} [])
           (Example.archived "internal/c.jpg" "internal"));
    try reflexivity.
  vm_compute. lia.
Defined.

(** X14. A remote delete is not undone.  For a listed row whose file is
    gone, in a clean transaction: when the record is read, the audit row is
    inserted and the object store deletes the object, but the server then
    refuses the delete of the live row or the commit, the step counts one
    error, rolls back and goes on.  The object is gone from the store, while
    the committed ledger still holds the record as uploaded and the audit
    table has no row for it. *)
Theorem remote_delete_not_undone w bucket filepath key n s rec :
  clean (conn s) ->
  path_exists w filepath = false ->
  s3_backups (committed (conn s)) !! filepath = Some rec ->
  db_fails w (issued (conn s)) (SelectRecord filepath) = false ->
  db_fails w (S (issued (conn s)))
    (InsertDeleted (audit_row bucket filepath rec 0)) = false ->
  delete_fails w key = None ->
  db_fails w (S (S (issued (conn s)))) (DeleteByPath filepath) = true
  \/ db_fails w (S (S (S (issued (conn s))))) Commit = true ->
  let r := sync_body w bucket false (filepath, key) n s in
  r.1 = Ok (n.1, S n.2)
  /\ clean (conn r.2)
  /\ committed (conn r.2) = committed (conn s)
  /\ s3_calls r.2 = s3_calls s ++ [DeleteObject bucket key]
  /\ last (logs r.2) = Some (LogDeleteUnexpected key).
Proof.
  intros [Hcur Hab] Hex Hrec Hsel Hins Hdel Hlate. cbv zeta.
  unfold audit_row in Hins. unfold_run. cbn [fst snd].
  rewrite Hex. cbn. rewrite Hab, Hcur, Hsel. cbn. rewrite Hrec. cbn.
  rewrite Hins. cbn. rewrite Hdel. cbn.
  destruct (db_fails w (S (S (issued (conn s)))) (DeleteByPath filepath)) eqn:Hd; cbn.
  - rewrite last_snoc. repeat split; reflexivity.
  - destruct Hlate as [? | Hcm]; [discriminate|]. rewrite Hcm. cbn.
    rewrite last_snoc. repeat split; reflexivity.
Qed.

(** On a server that refuses the delete of the live row. *)
Lemma remote_delete_not_undone_witness :
  let w := Example.refusing_deletes in
  let rec := Example.archived "internal/c.jpg" "internal" in
  let s := Example.at_rest {["/data/images/c.jpg" := rec]} in
  let r := sync_body w "bk" false ("/data/images/c.jpg", "internal/c.jpg") (0, 0) s in
  r.1 = Ok (0, 1)
  /\ s3_calls r.2 = [DeleteObject "bk" "internal/c.jpg"]
  /\ s3_backups (committed (conn r.2)) !! "/data/images/c.jpg" = Some rec
  /\ s3_backups_deleted (committed (conn r.2)) = [].
Proof.
  cbv zeta.
  pose proof (remote_delete_not_undone Example.refusing_deletes "bk"
    "/data/images/c.jpg" "internal/c.jpg" (0, 0)
    (Example.at_rest
       {["/data/images/c.jpg" := Example.archived "internal/c.jpg" "internal"]})
    (Example.archived "internal/c.jpg" "internal")
    (conj eq_refl eq_refl) eq_refl eq_refl eq_refl eq_refl eq_refl
    (or_introl eq_refl)) as (Hres & _ & Hcom & Hcalls & _).
  split; [exact Hres|]. split; [exact Hcalls|]. rewrite Hcom. split; reflexivity.
Defined.

(** X15. A dry run of all sources changes nothing: after the three upload
    passes and the three deletion passes run with the dry-run flag, the
    ledger tables, as committed and as the open transaction sees them, and
    the object store are as before, whatever fails and whether the sequence
    ends normally or with an exception. *)
Theorem whole_dry_run_changes_nothing w bucket internal_path external_path
    immich_path s :
  same_stores s
    (run_passes w bucket internal_path external_path immich_path true s).2.
Proof.
  unfold run_passes.
  repeat (apply bind_same_stores;
          [apply scan_and_upload_dry_run_same_stores
          || apply sync_deletions_dry_run_same_stores | intros _ ?]).
  apply sync_deletions_dry_run_same_stores.
Qed.

(** X16. A dry run does not recover from a refused statement.  The handler
    of the upload loop rolls back only in a real run, so when the
    transaction is aborted, or the server refuses the lookup of the first
    candidate, a dry-run pass counts every candidate as an error, uploads
    and skips none, and leaves the transaction aborted; a deletion pass that
    follows on an existing root then fails at its listing query with the
    database error. *)
Theorem dry_run_does_not_recover w bucket stype source_path x rest s :
  path_exists w source_path = true ->
  find_image_files w source_path = x :: rest ->
  aborted (conn s) = true
  \/ db_fails w (issued (conn s)) (SelectByPath x) = true ->
  let r := scan_and_upload w bucket stype source_path true s in
  r.1 = Ok tt
  /\ aborted (conn r.2) = true
  /\ last (logs r.2) = Some (LogCompleted stype 0 0 (S (length rest)))
  /\ forall stype' source_path' dry_run',
       path_exists w source_path' = true ->
       (sync_deletions w bucket stype' source_path' dry_run' r.2).1
       = Raise DatabaseError.
Proof.
  intros Hex Hfiles Hfail. cbv zeta.
  assert (H : (scan_and_upload w bucket stype source_path true s).1 = Ok tt
              /\ aborted (conn (scan_and_upload w bucket stype source_path true s).2)
                 = true
              /\ last (logs (scan_and_upload w bucket stype source_path true s).2)
                 = Some (LogCompleted stype 0 0 (S (length rest)))).
  { remember (scan_and_upload w bucket stype source_path true s) as R eqn:HR.
    unfold scan_and_upload in HR. rewrite Hex, Hfiles in HR.
    cbn [negb for_each] in HR. unfold bind, log in HR. cbv beta iota in HR.
    set (s0 := mkState (conn s) (s3_calls s)
                 (logs s ++ [LogScanning stype source_path])) in *.
    destruct (scan_body_dry_run_refused w bucket stype (path_resolve w source_path)
                x (mkCounts 0 0 0) s0 Hfail) as [Hres Hab].
    destruct (scan_body w bucket stype (path_resolve w source_path) true x
                (mkCounts 0 0 0) s0) as [r1 s1].
    cbn [fst snd] in Hres, Hab. subst r1. cbv beta iota in HR.
    destruct (scan_loop_dry_run_aborted w bucket stype (path_resolve w source_path)
                rest (mkCounts 0 1 0) s1 Hab) as [Hres' Hab'].
    unfold scan_loop in Hres', Hab'.
    destruct (for_each _ rest _ s1) as [r2 s2].
    cbn [fst snd uploaded_count error_count skipped_count] in Hres', Hab'.
    subst r2. cbv beta iota in HR. subst R.
    cbn [fst snd logs conn uploaded_count error_count skipped_count].
    rewrite last_snoc. auto. }
  destruct H as (H1 & H2 & H3). repeat (split; [assumption|]).
  intros stype' sp' dry_run' Hex'.
  now apply sync_deletions_aborted.
Qed.

(** A dry run that starts in an aborted transaction. *)
Lemma dry_run_does_not_recover_witness :
  let w := Example.host Example.images [] [] in
  let t := mkTables ∅ [] in
  let s := mkState (mkConn t t true 0) [] [] in
  let r := scan_and_upload w "bk" "internal" "/data/images" true s in
  find_image_files w "/data/images" = ["/data/images/a.jpg"; "/data/images/b.jpg"]
  /\ last (logs r.2) = Some (LogCompleted "internal" 0 0 2)
  /\ (sync_deletions w "bk" "internal" "/data/images" true r.2).1
     = Raise DatabaseError.
Proof.
  cbv zeta. split; [reflexivity|].
  pose proof (dry_run_does_not_recover (Example.host Example.images [] []) "bk"
    "internal" "/data/images" "/data/images/a.jpg" ["/data/images/b.jpg"]
    (mkState (mkConn (mkTables ∅ []) (mkTables ∅ []) true 0) [] [])
    eq_refl eq_refl (or_introl eq_refl)) as (_ & _ & Hlog & Hsync).
  split; [exact Hlog|]. now apply Hsync.
Defined.

(** X17. The password read from the credentials file, whose lines are
    decoded texts.  No password is found exactly when no line starts with
    ["image_server:"].  Otherwise it is taken from the first such line: when
    that line is the marker, white space, a password that neither starts
    nor ends with white space, and white space such as the line end, the
    password is read back as it is, with any colon and inner space it
    holds; lines after it play no part.  White space is what [str.strip]
    takes for it, code point by code point. *)
Theorem password_is_read_back lines :
  (credentials_password lines = None
   <-> Forall (fun line => starts_with (text "image_server:") line = false) lines)
  /\ forall pre lead pw trail post,
       lines = pre ++ (text "image_server:" ++ lead ++ pw ++ trail) :: post ->
       Forall (fun line => starts_with (text "image_server:") line = false) pre ->
       lstrip lead = [] -> rstrip trail = [] ->
       lstrip pw = pw -> rstrip pw = pw ->
       credentials_password lines = Some pw.
Proof.
  split.
  - induction lines as [|line lines IH]; cbn [credentials_password].
    + split; [constructor | reflexivity].
    + destruct (starts_with (text "image_server:") line) eqn:Hp.
      * split.
        -- apply starts_with_app_inv in Hp as [r ->].
           rewrite credentials_line_after. discriminate.
        -- intros H. apply Forall_cons in H as [H _]. congruence.
      * rewrite IH. split; [now constructor | now intros [_ ?]%Forall_cons].
  - intros pre lead pw trail post -> Hpre Hlead Htrail Hl Hr.
    induction Hpre as [|line pre Hline _ IH]; cbn [app credentials_password].
    + rewrite credentials_line_starts, credentials_line_after.
      unfold strip. rewrite lstrip_app_spaces by assumption.
      pose proof (strip_app_spaces pw trail Hl Hr Htrail) as E.
      unfold strip in E. now rewrite E.
    + now rewrite Hline.
Qed.

(** A password with a colon, an inner space and a final S with caron
    (code point 352), followed by an em space (8195) and the line end: the
    two white-space characters go, the letter stays. *)
Lemma password_is_read_back_witness :
  credentials_password
    [text "# database";
     text "image_server: s3:cr et" ++ [352; 8195; 10]%N;
     text "image_server:other"]
  = Some (text "s3:cr et" ++ [352%N]).
Proof.
  apply (proj2 (password_is_read_back _) [text "# database"] (text " ")
           (text "s3:cr et" ++ [352%N]) [8195; 10]%N [text "image_server:other"]).
  - reflexivity.
  - repeat constructor.
  - reflexivity.
  - reflexivity.
  - reflexivity.
  - reflexivity.
Defined.

(** X18. Loading the environment.  A line whose name part is not empty
    sets the variable to everything after the first equals sign (so a value
    may hold equals signs) and the last such line wins; a line without an
    equals sign changes nothing; a line that starts with an equals sign
    makes the loader raise, whatever follows it. *)
Theorem load_env_last_assignment_wins lines key value environ environ1 :
  load_env lines environ = Some environ1 ->
  key <> "" ->
  no_equals key = true ->
  load_env (lines ++ [(key ++ "=" ++ value)%string]) environ
  = Some (<[key := value]> environ1)
  /\ (forall line, no_equals line = true ->
        load_env (lines ++ [line]) environ = Some environ1)
  /\ (forall text rest,
        load_env (lines ++ ("=" ++ text)%string :: rest) environ = None).
Proof.
  intros Hload Hne Hk.
  assert (Happ : forall l2, load_env (lines ++ l2) environ = load_env l2 environ1).
  { clear -Hload. revert environ Hload.
    induction lines as [|line lines IH]; intros environ Hload l2.
    - cbn in Hload. now injection Hload as ->.
    - cbn [app load_env] in *. destruct (split_once "=" line) as [[k v]|].
      + destruct (String.eqb k ""); [discriminate | now apply IH].
      + now apply IH. }
  rewrite Happ. cbn [load_env]. rewrite no_equals_split by assumption.
  destruct (String.eqb_spec key "") as [->|_]; [congruence|].
  split; [reflexivity|]. split.
  - intros line Hline. rewrite Happ. cbn [load_env].
    assert (Hnone : split_once "=" line = None).
    { clear -Hline. induction line as [|c line IH]; cbn in *; [reflexivity|].
      apply andb_prop in Hline as [Hc Hline]. apply negb_true_iff in Hc.
      rewrite Hc. now rewrite IH. }
    now rewrite Hnone.
  - intros text rest. rewrite Happ. reflexivity.
Qed.

(** The bucket is set twice and a value holds an equals sign. *)
Lemma load_env_last_assignment_wins_witness :
  load_env ["S3_BUCKET=old"; "export"; "OPTS=a=b"; "S3_BUCKET=photos"] ∅
  = Some (<["S3_BUCKET" := "photos"]>
            (<["OPTS" := "a=b"]> (<["S3_BUCKET" := "old"]> ∅))).
Proof.
  apply (proj1 (load_env_last_assignment_wins
                  ["S3_BUCKET=old"; "export"; "OPTS=a=b"] "S3_BUCKET" "photos" ∅
                  (<["OPTS" := "a=b"]> (<["S3_BUCKET" := "old"]> ∅))
                  eq_refl ltac:(discriminate) eq_refl)).
Defined.
